(** * Montanero site script: navigation menu, reveal animations, signup form

    A shallow embedding of [src/js/main.js] (the variant that simulates the
    submission with a timer) and [src/scripts/main.js] (the variant that posts
    to the form-collection endpoint), and the properties of the menu state,
    the reveal observer and the signup form handler. *)

From Stdlib Require Import NArith ZArith Ascii String Lia.
From Stdlib Require QArith.
From stdpp Require Import gmap strings list.

Open Scope N_scope.
Open Scope nat_scope.
Open Scope list_scope.

(** ** JavaScript strings

    A JavaScript string is a sequence of UTF-16 code units. *)

Abbreviation code_unit := N.
Abbreviation jsstring := (list N).

(** A source literal made only of ASCII characters. *)
Definition lit (s : string) : jsstring :=
  map N_of_ascii (list_ascii_of_string s).

(** The code points of the [WhiteSpace] and [LineTerminator] productions:
    this one set is what [\s] matches in a regular expression and what
    [String.prototype.trim] strips. *)
Definition is_white_space (c : code_unit) : bool :=
  ((9 <=? c) && (c <=? 13) ||
   (c =? 32) || (c =? 160) || (c =? 5760) ||
   ((8192 <=? c) && (c <=? 8202)) ||
   (c =? 8232) || (c =? 8233) || (c =? 8239) || (c =? 8287) ||
   (c =? 12288) || (c =? 65279))%N.

(** [String.prototype.trim]. *)
Fixpoint trimStart (s : jsstring) : jsstring :=
  match s with
  | [] => []
  | c :: s' => if is_white_space c then trimStart s' else s
  end.

Definition trimEnd (s : jsstring) : jsstring := rev (trimStart (rev s)).

Definition trim (s : jsstring) : jsstring := trimEnd (trimStart s).

(** ** Regular expressions

    The fragment of the pattern language that the script uses, with the
    backtracking semantics of the language definition: a matcher takes the
    current position and a continuation, and the continuation decides whether
    the rest of the pattern matches from the position the matcher reached. *)

Module RegExp.

Inductive class_atom : Type :=
| ClassEscape_s                 (* \s *)
| ClassChar (c : code_unit).    (* a literal character in a class *)

Inductive pattern : Type :=
| AssertStart                                   (* ^ *)
| AssertEnd                                     (* $ *)
| Char (c : code_unit)                          (* a literal, or an escaped one such as \. *)
| CharClass (negated : bool) (atoms : list class_atom)   (* [...] and [^...] *)
| Plus (p : pattern)                            (* p+ , greedy *)
| Seq (p q : pattern).                          (* p q *)

Definition atom_mem (a : class_atom) (c : code_unit) : bool :=
  match a with
  | ClassEscape_s => is_white_space c
  | ClassChar d => (c =? d)%N
  end.

Definition class_mem (negated : bool) (atoms : list class_atom) (c : code_unit) : bool :=
  xorb negated (existsb (fun a => atom_mem a c) atoms).

(** The match state: the index reached in the input and the input that is
    left from there. *)
Record match_state : Type := MatchState { endIndex : nat; rest : jsstring }.

Definition continuation := match_state -> bool.
Definition matcher := match_state -> continuation -> bool.

Definition advance (x : match_state) : option (code_unit * match_state) :=
  match rest x with
  | [] => None
  | ch :: tl => Some (ch, MatchState (S (endIndex x)) tl)
  end.

Definition CharacterSetMatcher (mem : code_unit -> bool) : matcher :=
  fun x c =>
    match advance x with
    | None => false
    | Some (ch, y) => if mem ch then c y else false
    end.

(** [RepeatMatcher] for an unbounded greedy quantifier with [min]
    repetitions still owed. An iteration that is not owed and consumes
    nothing fails, so every further iteration advances; [fuel] bounds the
    number of iterations. *)
Fixpoint RepeatMatcher (fuel : nat) (m : matcher) (min : nat)
         (x : match_state) (c : continuation) : bool :=
  match fuel with
  | O => false
  | S fuel' =>
      let d : continuation := fun y =>
        if (min =? 0) && (endIndex y =? endIndex x) then false
        else RepeatMatcher fuel' m (pred min) y c in
      if negb (min =? 0) then m x d
      else if m x d then true else c x
  end.

Fixpoint compile (p : pattern) : matcher :=
  match p with
  | AssertStart => fun x c => if endIndex x =? 0 then c x else false
  | AssertEnd => fun x c => match rest x with [] => c x | _ :: _ => false end
  | Char ch => CharacterSetMatcher (fun d => (d =? ch)%N)
  | CharClass negated atoms => CharacterSetMatcher (class_mem negated atoms)
  | Plus q => fun x c => RepeatMatcher (S (S (length (rest x)))) (compile q) 1 x c
  | Seq q r => fun x c => compile q x (fun y => compile r y c)
  end.

(** [RegExp.prototype.test] for a pattern without flags: the match is tried
    at index 0, then at each later index up to the length of the input. *)
Fixpoint exec_loop (p : pattern) (lastIndex : nat) (s : jsstring) : bool :=
  if compile p (MatchState lastIndex s) (fun _ => true) then true
  else match s with
       | [] => false
       | _ :: s' => exec_loop p (S lastIndex) s'
       end.

Definition test (p : pattern) (s : jsstring) : bool := exec_loop p 0 s.

End RegExp.

(** ** [JSON.stringify] of an object with one string property *)

Module JSON.

Definition is_leading_surrogate (c : code_unit) : bool :=
  ((55296 <=? c) && (c <=? 56319))%N.
Definition is_trailing_surrogate (c : code_unit) : bool :=
  ((56320 <=? c) && (c <=? 57343))%N.

Definition hex_digit (n : N) : code_unit :=
  (if n <? 10 then 48 + n else 87 + n)%N.

(** [UnicodeEscape]: a backslash, [u] and four lowercase hexadecimal digits. *)
Definition UnicodeEscape (c : code_unit) : jsstring :=
  [92; 117;
   hex_digit ((c / 4096) mod 16); hex_digit ((c / 256) mod 16);
   hex_digit ((c / 16) mod 16); hex_digit (c mod 16)]%N.

(** A code unit that is not the first half of a surrogate pair. *)
Definition quote_unit (c : code_unit) : jsstring :=
  (if c =? 8 then lit "\b"
   else if c =? 9 then lit "\t"
   else if c =? 10 then lit "\n"
   else if c =? 12 then lit "\f"
   else if c =? 13 then lit "\r"
   else if c =? 34 then [92; 34]
   else if c =? 92 then [92; 92]
   else if (c <? 32) || is_leading_surrogate c || is_trailing_surrogate c
        then UnicodeEscape c
   else [c])%N.

Fixpoint quote_units (s : jsstring) : jsstring :=
  match s with
  | [] => []
  | c :: s' =>
      if is_leading_surrogate c then
        match s' with
        | d :: s'' =>
            if is_trailing_surrogate d then c :: d :: quote_units s''
            else quote_unit c ++ quote_units s'
        | [] => quote_unit c
        end
      else quote_unit c ++ quote_units s'
  end.

Definition QuoteJSONString (s : jsstring) : jsstring :=
  [34%N] ++ quote_units s ++ [34%N].

(** [JSON.stringify({ key: value })] for a string [value]. *)
Definition stringify_object1 (key value : jsstring) : jsstring :=
  lit "{" ++ QuoteJSONString key ++ lit ":" ++ QuoteJSONString value ++ lit "}".

End JSON.

(** ** Exceptions

    Reading a property of [null] throws a TypeError, which ends the listener
    that did it. The state at the throw is not kept: the listeners of the
    menu are registered only on a page where no such read happens. *)

Inductive error : Type := TypeError.

Inductive result (A : Type) : Type :=
| Ok (a : A)
| Throw (e : error).
Arguments Ok {A} a.
Arguments Throw {A} e.

#[global] Instance result_ret : MRet result := fun A a => Ok a.
#[global] Instance result_bind : MBind result := fun A B f r =>
  match r with
  | Ok a => f a
  | Throw e => Throw e
  end.

(** ** Page elements *)

Record element : Type := Element { classList : gset (list N) }.

(** [el.classList.add(token)] and [el.classList.remove(token)] on a reference
    that may be [null]. *)
Definition classList_add (token : jsstring) (el : option element) : result element :=
  match el with
  | Some e => Ok (Element ({[token]} ∪ classList e))
  | None => Throw TypeError
  end.

Definition classList_remove (token : jsstring) (el : option element) : result element :=
  match el with
  | Some e => Ok (Element (classList e ∖ {[token]}))
  | None => Throw TypeError
  end.

Definition has_class (token : jsstring) (el : option element) : Prop :=
  match el with
  | Some e => token ∈ classList e
  | None => False
  end.

(** ** The mobile menu (the same text in both files) *)

Module Menu.

Record state : Type := State {
  isMenuOpen : bool;                 (* let isMenuOpen = false *)
  navToggle : option element;        (* document.getElementById('nav-toggle') *)
  navMobile : option element;        (* document.getElementById('nav-mobile') *)
  body_style_overflow : jsstring     (* document.body.style.overflow *)
}.

(** The state when the script is loaded, on a page with the given elements. *)
Definition initial (toggle mobile : option element) (overflow : jsstring) : state :=
  State false toggle mobile overflow.

Definition openMenu (st : state) : result state :=
  t ← classList_add (lit "active") (navToggle st);
  m ← classList_add (lit "active") (navMobile st);
  Ok (State true (Some t) (Some m) (lit "hidden")).

Definition closeMenu (st : state) : result state :=
  t ← classList_remove (lit "active") (navToggle st);
  m ← classList_remove (lit "active") (navMobile st);
  Ok (State false (Some t) (Some m) (lit "")).

Definition toggleMenu (st : state) : result state :=
  if isMenuOpen st then closeMenu st else openMenu st.

Inductive event : Type :=
| ToggleClick                    (* click on the toggle control *)
| MobileLinkClick                (* click on any .nav-mobile-link *)
| KeyDown (key : jsstring)       (* keydown on the document *)
| Resize (innerWidth : Z).       (* resize of the window, with its new width *)

(** [setupMobileMenu] returns before it registers any listener when the
    toggle or the menu is missing. *)
Definition listeners_registered (st : state) : bool :=
  match navToggle st, navMobile st with
  | Some _, Some _ => true
  | _, _ => false
  end.

Definition listener (ev : event) (st : state) : result state :=
  match ev with
  | ToggleClick => toggleMenu st
  | MobileLinkClick => closeMenu st
  | KeyDown key =>
      if bool_decide (key = lit "Escape") && isMenuOpen st then closeMenu st
      else Ok st
  | Resize innerWidth =>
      if (768 <=? innerWidth)%Z && isMenuOpen st then closeMenu st
      else Ok st
  end.

Definition dispatch (ev : event) (st : state) : result state :=
  if listeners_registered st then listener ev st else Ok st.

Fixpoint run (evs : list event) (st : state) : result state :=
  match evs with
  | [] => Ok st
  | ev :: evs' => st' ← dispatch ev st; run evs' st'
  end.

(** The operations that change the menu state. *)
Inductive operation : Type :=
| Toggle | Open | Close | Handle (ev : event).

Definition apply (op : operation) (st : state) : result state :=
  match op with
  | Toggle => toggleMenu st
  | Open => openMenu st
  | Close => closeMenu st
  | Handle ev => dispatch ev st
  end.

Definition elements_present (st : state) : Prop :=
  is_Some (navToggle st) ∧ is_Some (navMobile st).

(** Along any run from the initial state the listeners are registered, or
    nothing has been registered and the flag is still [false]. *)
Definition registered_or_idle (st : state) : Prop :=
  elements_present st ∨ (listeners_registered st = false ∧ isMenuOpen st = false).

(** The flag says open exactly when both elements carry the marker. *)
Definition flag_matches_markers (st : state) : Prop :=
  isMenuOpen st = true ↔
  has_class (lit "active") (navToggle st) ∧ has_class (lit "active") (navMobile st).

(** What the operations establish, whatever the state before. *)
Definition opened (st : state) : Prop :=
  isMenuOpen st = true ∧ elements_present st ∧
  has_class (lit "active") (navToggle st) ∧ has_class (lit "active") (navMobile st).

Definition closed (st : state) : Prop :=
  isMenuOpen st = false ∧ elements_present st ∧
  ¬ has_class (lit "active") (navToggle st) ∧ ¬ has_class (lit "active") (navMobile st).

End Menu.

(** ** Reveal animations (the same text in both files) *)

Module Reveal.

(** Page elements are named by numbers; [classes] gives the class list of
    each one, [targets] the elements the observer currently observes. *)
Record state : Type := State {
  classes : gmap nat (gset (list N));
  targets : gset nat
}.

Definition classList_of (st : state) (el : nat) : gset (list N) :=
  default ∅ (classes st !! el).

Definition visible (st : state) (el : nat) : Prop :=
  lit "visible" ∈ classList_of st el.

(* el.classList.add(token) *)
Definition add_class (token : jsstring) (el : nat) (st : state) : state :=
  State (<[el := {[token]} ∪ classList_of st el]> (classes st)) (targets st).

(* observer.observe(el) and observer.unobserve(el) *)
Definition observe (el : nat) (st : state) : state :=
  State (classes st) ({[el]} ∪ targets st).

Definition unobserve (el : nat) (st : state) : state :=
  State (classes st) (targets st ∖ {[el]}).

Record entry : Type := Entry { target : nat; isIntersecting : bool }.

(** The body of the callback's loop. *)
Definition on_entry (st : state) (en : entry) : state :=
  if isIntersecting en then
    unobserve (target en) (add_class (lit "visible") (target en) st)
  else st.

Definition observer_callback (entries : list entry) (st : state) : state :=
  foldl on_entry st entries.

(** [setupRevealAnimations], on a page whose [.reveal] elements are
    [revealElements], in a runtime that has the observer or not. *)
Definition setupRevealAnimations (supported : bool) (revealElements : list nat)
           (st : state) : state :=
  if length revealElements =? 0 then st
  else if negb supported then
    foldl (fun st el => add_class (lit "visible") el st) st revealElements
  else
    foldl (fun st el => observe el st) st revealElements.

(** One step of the animator: the observer delivers a batch of entries, all
    of them about elements it observes at that moment. *)
Inductive step : state -> list entry -> state -> Prop :=
| step_deliver (st : state) (entries : list entry) :
    Forall (fun en => target en ∈ targets st) entries ->
    step st entries (observer_callback entries st).

Inductive steps : state -> list (list entry) -> state -> Prop :=
| steps_nil (st : state) : steps st [] st
| steps_cons (st st1 st2 : state) (b : list entry) (bs : list (list entry)) :
    step st b st1 -> steps st1 bs st2 -> steps st (b :: bs) st2.

(** A delivery marks [el] when one of its entries reports [el] as
    intersecting: the callback then calls [classList.add('visible')] on it. *)
Definition marks (el : nat) (entries : list entry) : bool :=
  existsb (fun en => isIntersecting en && (target en =? el)) entries.

Definition markings (el : nat) (batches : list (list entry)) : nat :=
  length (filter (fun b => marks el b = true) batches).

End Reveal.

(** ** The signup form: what both files share

    The listener is registered when the page has the form; it reads the input
    and the button of the form without a check, so the state below is that of
    a page that has them. The message area is looked up once and may be
    missing. The listener first calls [preventDefault], which changes nothing
    of this state. *)

Module Form.

Record message_area : Type := MessageArea {
  textContent : jsstring;
  className : jsstring
}.

Record request : Type := Request {
  url : jsstring;
  method : jsstring;
  headers : list (jsstring * jsstring);
  body : jsstring
}.

(** The functions handed to [setTimeout], with the variables they close over. *)
Inductive callback : Type :=
| ClearMessage                                  (* the timer of showMessage *)
| SimulatedResponse (originalText : jsstring).  (* the timer of the simulated submission *)

(** What has been started and has not happened yet. *)
Inductive task : Type :=
| Timeout (cb : callback) (delay : N)
| Fetch (req : request) (originalText : jsstring).

Record state : Type := State {
  emailInput_value : jsstring;            (* .signup-input value *)
  button_textContent : jsstring;          (* .signup-button label *)
  button_disabled : bool;
  signupMessage : option message_area;    (* document.getElementById('signup-message') *)
  pending : list task
}.

Definition set_emailInput_value (v : jsstring) (st : state) : state :=
  State v (button_textContent st) (button_disabled st) (signupMessage st) (pending st).
Definition set_button_textContent (v : jsstring) (st : state) : state :=
  State (emailInput_value st) v (button_disabled st) (signupMessage st) (pending st).
Definition set_button_disabled (v : bool) (st : state) : state :=
  State (emailInput_value st) (button_textContent st) v (signupMessage st) (pending st).
Definition set_signupMessage (v : option message_area) (st : state) : state :=
  State (emailInput_value st) (button_textContent st) (button_disabled st) v (pending st).
Definition start (t : task) (st : state) : state :=
  State (emailInput_value st) (button_textContent st) (button_disabled st)
        (signupMessage st) (pending st ++ [t]).
Definition finish (i : nat) (st : state) : state :=
  State (emailInput_value st) (button_textContent st) (button_disabled st)
        (signupMessage st) (delete i (pending st)).

Definition showMessage (message type : jsstring) (st : state) : state :=
  match signupMessage st with
  | None => st
  | Some _ =>
      start (Timeout ClearMessage 5000)
        (set_signupMessage
           (Some (MessageArea message (lit "signup-message " ++ type))) st)
  end.

(** The timer body of [showMessage]; the timer is started only on a page
    that has the message area. *)
Definition clear_message (st : state) : state :=
  match signupMessage st with
  | None => st
  | Some _ => set_signupMessage (Some (MessageArea (lit "") (lit "signup-message"))) st
  end.

(** A task is a submission when it is the request or the simulated delay;
    the timer that clears the message is not one. *)
Definition is_submission (t : task) : bool :=
  match t with
  | Timeout ClearMessage _ => false
  | Timeout (SimulatedResponse _) _ => true
  | Fetch _ _ => true
  end.

End Form.

(** ** [src/js/main.js]: the submission is simulated by a timer *)

Module Js.
Import RegExp Form.

(* /^[^\s@]+@[^\s@]+\.[^\s@]+$/ *)
Definition emailRegex : pattern :=
  Seq AssertStart
 (Seq (Plus (CharClass true [ClassEscape_s; ClassChar 64%N]))
 (Seq (Char 64%N)
 (Seq (Plus (CharClass true [ClassEscape_s; ClassChar 64%N]))
 (Seq (Char 46%N)
 (Seq (Plus (CharClass true [ClassEscape_s; ClassChar 64%N]))
      AssertEnd))))).

Definition isValidEmail (email : jsstring) : bool := test emailRegex email.

(** The submit listener, up to the point where it returns. *)
Definition on_submit (st : state) : state :=
  let email := trim (emailInput_value st) in
  if negb (isValidEmail email) then
    showMessage (lit "Please enter a valid email address.") (lit "error") st
  else
    let originalText := button_textContent st in
    let st := set_button_textContent (lit "Sending...") st in
    let st := set_button_disabled true st in
    start (Timeout (SimulatedResponse originalText) 1000) st.

Definition run_callback (cb : callback) (st : state) : state :=
  match cb with
  | ClearMessage => clear_message st
  | SimulatedResponse originalText =>
      let st := showMessage (lit "Thanks! We'll be in touch soon.") (lit "success") st in
      let st := set_emailInput_value (lit "") st in
      let st := set_button_textContent originalText st in
      set_button_disabled false st
  end.

(** The [i]-th pending task is a timer and it fires. *)
Definition timer_fires (i : nat) (st : state) : state :=
  match pending st !! i with
  | Some (Timeout cb _) => run_callback cb (finish i st)
  | _ => st
  end.

End Js.

(** ** [src/scripts/main.js]: the submission is posted to the endpoint *)

Module Scripts.
Import RegExp Form.

(* /^[^\s@]+@[^\s@]+\.[^\s@]+$/ *)
Definition emailRegex : pattern :=
  Seq AssertStart
 (Seq (Plus (CharClass true [ClassEscape_s; ClassChar 64%N]))
 (Seq (Char 64%N)
 (Seq (Plus (CharClass true [ClassEscape_s; ClassChar 64%N]))
 (Seq (Char 46%N)
 (Seq (Plus (CharClass true [ClassEscape_s; ClassChar 64%N]))
      AssertEnd))))).

Definition isValidEmail (email : jsstring) : bool := test emailRegex email.

Definition FORMSPREE_ENDPOINT : jsstring := lit "https://formspree.io/f/xeegzwzw".

Definition signup_request (email : jsstring) : request :=
  Request FORMSPREE_ENDPOINT (lit "POST")
          [(lit "Content-Type", lit "application/json");
           (lit "Accept", lit "application/json")]
          (JSON.stringify_object1 (lit "email") email).

(** The submit listener, up to the point where it returns. *)
Definition on_submit (st : state) : state :=
  let email := trim (emailInput_value st) in
  if negb (isValidEmail email) then
    showMessage (lit "Please enter a valid email address.") (lit "error") st
  else
    let originalText := button_textContent st in
    let st := set_button_textContent (lit "Signing up...") st in
    let st := set_button_disabled true st in
    start (Fetch (signup_request email) originalText) st.

(** *** The promise chain

    A promise is settled by running the reactions registered on it; a
    reaction may change the page. *)

Inductive settled (A : Type) : Type :=
| Fulfilled (a : A)
| Rejected.
Arguments Fulfilled {A} a.
Arguments Rejected {A}.

Definition promise (A : Type) : Type := state -> settled A * state.

Definition resolve {A : Type} (a : A) : promise A := fun st => (Fulfilled a, st).
Definition throw {A : Type} : promise A := fun st => (Rejected, st).

Definition then_ {A B : Type} (p : promise A) (f : A -> promise B) : promise B :=
  fun st =>
    match p st with
    | (Fulfilled a, st') => f a st'
    | (Rejected, st') => (Rejected, st')
    end.

Definition catch_ {A : Type} (p : promise A) (h : promise A) : promise A :=
  fun st =>
    match p st with
    | (Fulfilled a, st') => (Fulfilled a, st')
    | (Rejected, st') => h st'
    end.

Definition finally_ {A : Type} (p : promise A) (h : state -> state) : promise A :=
  fun st =>
    match p st with
    | (r, st') => (r, h st')
    end.

(** How the request ends: no response at all, or a response with its
    status and with a body that parses as JSON or does not. *)
Record response : Type := Response { ok : bool; body_is_json : bool }.

Inductive fetch_outcome : Type :=
| NetworkError
| Responded (r : response).

Definition fetch_promise (o : fetch_outcome) : promise response :=
  match o with
  | NetworkError => throw
  | Responded r => resolve r
  end.

(* response.json() *)
Definition response_json (r : response) : promise unit :=
  if body_is_json r then resolve tt else throw.

Definition on_settle (originalText : jsstring) (o : fetch_outcome) (st : state) : state :=
  snd
    (finally_
       (catch_
          (then_
             (then_ (fetch_promise o)
                    (fun response =>
                       if ok response then response_json response else throw))
             (fun _ st =>
                let st := showMessage (lit "You're on the list!") (lit "success") st in
                resolve tt (set_emailInput_value (lit "") st)))
          (fun st =>
             resolve tt
               (showMessage (lit "Something went wrong. Please try again.")
                            (lit "error") st)))
       (fun st =>
          let st := set_button_textContent originalText st in
          set_button_disabled false st)
       st).

Definition run_callback (cb : callback) (st : state) : state :=
  match cb with
  | ClearMessage => clear_message st
  | SimulatedResponse _ => st      (* this file starts no such timer *)
  end.

Definition timer_fires (i : nat) (st : state) : state :=
  match pending st !! i with
  | Some (Timeout cb _) => run_callback cb (finish i st)
  | _ => st
  end.

(** The [i]-th pending task is a request and it ends with outcome [o]. *)
Definition fetch_settles (i : nat) (o : fetch_outcome) (st : state) : state :=
  match pending st !! i with
  | Some (Fetch _ originalText) => on_settle originalText o (finish i st)
  | _ => st
  end.

(** The outcomes the script treats as success, and the failures of the
    request itself. *)
Definition succeeded (o : fetch_outcome) : Prop :=
  o = Responded (Response true true).

Definition request_failed (o : fetch_outcome) : Prop :=
  o = NetworkError ∨ ∃ b, o = Responded (Response false b).

End Scripts.

(** ** Vocabulary of the statements *)

Definition no_white_space (s : jsstring) : Prop :=
  Forall (fun c => is_white_space c = false) s.

Definition all_white_space (s : jsstring) : Prop :=
  Forall (fun c => is_white_space c = true) s.

(** A character that may stand in a segment of an address: neither white
    space nor [@]. *)
Definition segment_char (c : code_unit) : Prop :=
  is_white_space c = false ∧ c ≠ 64%N.

(** [local-part@domain.tld] with the three parts not empty. *)
Definition splits_at_and_dot (s l d t : jsstring) : Prop :=
  s = l ++ [64%N] ++ d ++ [46%N] ++ t ∧ l ≠ [] ∧ d ≠ [] ∧ t ≠ [].

(** The shape as the specification words it: no white space, at least one
    [@], at least one [.] after the [@], and the three parts not empty. *)
Definition spec_email_shape (s : jsstring) : Prop :=
  no_white_space s ∧ ∃ l d t, splits_at_and_dot s l d t.

(** The number of [@] in a string. *)
Definition count_at (s : jsstring) : nat :=
  length (filter (fun c => c = 64%N) s).

(** The events after which the menu has to be closed: a click on a link of
    the mobile menu in any state, and the Escape key or a resize to 768 or
    wider while the menu is open. *)
Definition forces_closed (ev : Menu.event) (st : Menu.state) : Prop :=
  match ev with
  | Menu.ToggleClick => False
  | Menu.MobileLinkClick => True
  | Menu.KeyDown key => key = lit "Escape" ∧ Menu.isMenuOpen st = true
  | Menu.Resize innerWidth => (768 <= innerWidth)%Z ∧ Menu.isMenuOpen st = true
  end.

(** What the message area holds after [showMessage(message, type)]: the
    message and the class of its type where the page has the area, and
    nothing where it has none. *)
Definition shown (message type : jsstring) (area : option Form.message_area) :
  option Form.message_area :=
  match area with
  | Some _ => Some (Form.MessageArea message (lit "signup-message " ++ type))
  | None => None
  end.

(** ** Sample pages *)

Definition sample_menu : Menu.state :=
  Menu.initial (Some (Element ∅)) (Some (Element ∅)) (lit "").

Definition sample_open_menu : Menu.state :=
  Menu.State true (Some (Element ({[lit "active"]} ∪ ∅)))
             (Some (Element ({[lit "active"]} ∪ ∅))) (lit "hidden").

(** Two reveal elements, observed by a runtime that has the observer. *)
Definition sample_reveal : Reveal.state :=
  Reveal.setupRevealAnimations true [0; 1] (Reveal.State ∅ ∅).

Definition sample_deliveries : list (list Reveal.entry) :=
  [[Reveal.Entry 0 true; Reveal.Entry 1 false]; [Reveal.Entry 1 true]].

(** A page with its form filled in, before the submit. *)
Definition sample_form (value : jsstring) : Form.state :=
  Form.State value (lit "Notify me") false
             (Some (Form.MessageArea (lit "") (lit "signup-message"))) [].

(** ** The navigation bar on scroll (the same text in both files)

    [window.scrollY] is a number that need not be whole; it is compared with
    the threshold only, so a rational stands for it. *)

Module NavScroll.

Record state : Type := State {
nav : option element;          (* document.getElementById('nav') *)
scrollY : QArith_base.Q;       (* window.scrollY *)
lastScroll : QArith_base.Q;    (* let lastScroll = 0 *)
ticking : bool;                (* let ticking = false *)
frames : nat                   (* callbacks given to requestAnimationFrame, not run yet *)
}.

Definition scrollThreshold : QArith_base.Q := QArith_base.inject_Z 50.

Definition handleScroll (st : state) : result state :=
let currentScroll := scrollY st in
n ← (if negb (QArith_base.Qle_bool currentScroll scrollThreshold)
     then classList_add (lit "scrolled") (nav st)
     else classList_remove (lit "scrolled") (nav st));
Ok (State (Some n) (scrollY st) currentScroll (ticking st) (frames st)).

(** The listener of the scroll event. *)
Definition on_scroll (st : state) : state :=
if negb (ticking st) then
  State (nav st) (scrollY st) (lastScroll st) true (S (frames st))
else st.

(** The function given to [requestAnimationFrame]. When [handleScroll]
  throws, the callback ends there, before it resets [ticking]; nothing has
  been written by then. *)
Definition frame_callback (st : state) : state :=
match handleScroll st with
| Ok st' => State (nav st') (scrollY st') (lastScroll st') false (frames st')
| Throw _ => st
end.

Inductive event : Type :=
| Scroll (y : QArith_base.Q)   (* the window is scrolled to [y] and the scroll event fires *)
| AnimationFrame.              (* the frame runs the callbacks requested before it *)

Definition handle (ev : event) (st : state) : state :=
match ev with
| Scroll y => on_scroll (State (nav st) y (lastScroll st) (ticking st) (frames st))
| AnimationFrame =>
    Nat.iter (frames st) frame_callback
             (State (nav st) (scrollY st) (lastScroll st) (ticking st) 0)
end.

Definition run (evs : list event) (st : state) : state := foldl (fun st ev => handle ev st) st evs.

(** The variables of [setupNavScroll] as it declares them, before
  [handleScroll] has run. *)
Definition initial (nav : option element) (y : QArith_base.Q) : state :=
State nav y (QArith_base.inject_Z 0) false 0.

(** [setupNavScroll]: the listener is registered, then the position is
  checked once. *)
Definition setupNavScroll (nav : option element) (y : QArith_base.Q) : result state :=
handleScroll (initial nav y).

(** The marker follows the position. *)
Definition marker_matches_position (st : state) : Prop :=
has_class (lit "scrolled") (nav st) ↔ QArith_base.Qlt scrollThreshold (scrollY st).

(** The bar is there, at most one frame is requested, [ticking] says whether
  one is, and with none requested the marker is up to date. *)
Definition settled (st : state) : Prop :=
is_Some (nav st) ∧ frames st <= 1 ∧ (ticking st = true ↔ frames st = 1) ∧
(frames st = 0 -> marker_matches_position st).

(** The bar is missing and [ticking] is set. *)
Definition stuck (st : state) : Prop :=
nav st = None ∧ ticking st = true ∧ frames st <= 1.

End NavScroll.

(** ** Loading the page: [init] (the same text in both files) *)

Module Page.

Inductive listener : Type :=
| ScrollListener                       (* window, scroll *)
| ToggleClickListener                  (* the toggle, click *)
| MobileLinkClickListener (link : nat) (* a .nav-mobile-link, click *)
| KeyDownListener                      (* document, keydown *)
| ResizeListener                       (* window, resize *)
| AnchorClickListener (anchor : nat)   (* an a[href^="#"], click *)
| SubmitListener.                      (* the form, submit *)

(** What the script finds on the page. *)
Record document : Type := Document {
navToggle : option element;          (* getElementById('nav-toggle') *)
navMobile : option element;          (* getElementById('nav-mobile') *)
navMobileLinks : list nat;           (* querySelectorAll('.nav-mobile-link') *)
anchors : list nat;                  (* querySelectorAll('a[href^="#"]') *)
revealElements : list nat;           (* querySelectorAll('.reveal') *)
IntersectionObserver_in_window : bool;
signupForm : bool                    (* getElementById('signup-form') is not null *)
}.

(** What [init] changes: the listeners registered so far, the variables of
  the scroll effect with the navigation bar, and the reveal elements with
  their observer. *)
Record env : Type := Env {
listeners : list listener;
scroll : NavScroll.state;
reveal : Reveal.state
}.

Definition addEventListener (l : listener) (e : env) : env :=
Env (listeners e ++ [l]) (scroll e) (reveal e).

(** A setup function changes the environment and returns, or throws. *)
Definition setup : Type := env -> env * option error.

Definition setupNavScroll : setup := fun e =>
let e := addEventListener ScrollListener e in
match NavScroll.handleScroll (scroll e) with
| Ok s => (Env (listeners e) s (reveal e), None)
| Throw err => (e, Some err)
end.

Definition setupMobileMenu (d : document) : setup := fun e =>
match navToggle d, navMobile d with
| Some _, Some _ =>
    let e := addEventListener ToggleClickListener e in
    let e := foldl (fun e link => addEventListener (MobileLinkClickListener link) e)
                   e (navMobileLinks d) in
    let e := addEventListener KeyDownListener e in
    (addEventListener ResizeListener e, None)
| _, _ => (e, None)
end.

Definition setupSmoothScroll (d : document) : setup := fun e =>
(foldl (fun e anchor => addEventListener (AnchorClickListener anchor) e) e (anchors d), None).

Definition setupRevealAnimations (d : document) : setup := fun e =>
(Env (listeners e) (scroll e)
     (Reveal.setupRevealAnimations (IntersectionObserver_in_window d)
                                   (revealElements d) (reveal e)),
 None).

Definition setupSignupForm (d : document) : setup := fun e =>
if signupForm d then (addEventListener SubmitListener e, None) else (e, None).

(** One call after the other; a throw ends the sequence. *)
Definition and_then (f g : setup) : setup := fun e =>
match f e with
| (e', None) => g e'
| (e', Some err) => (e', Some err)
end.

Definition init (d : document) : setup :=
and_then setupNavScroll
(and_then (setupMobileMenu d)
(and_then (setupSmoothScroll d)
(and_then (setupRevealAnimations d)
         (setupSignupForm d)))).

(** The environment when the script starts [init]: nothing is registered. *)
Definition start (nav : option element) (y : QArith_base.Q) (r : Reveal.state) : env :=
Env [] (NavScroll.initial nav y) r.

End Page.

(** ** Vocabulary of the further statements *)

(** Page scrolling is frozen exactly while the menu is open. *)
Definition scroll_lock_matches_flag (st : Menu.state) : Prop :=
  Menu.body_style_overflow st = if Menu.isMenuOpen st then lit "hidden" else lit "".

(** The classes other than [token] are the same on both elements. *)
Definition same_classes_but (token : jsstring) (a b : option element) : Prop :=
  ∀ other : jsstring, other ≠ token -> (has_class other a ↔ has_class other b).

(** A code unit that [JSON.stringify] copies as it is: no control character,
    no quote, no backslash, no half of a surrogate pair. *)
Definition plain_unit (c : code_unit) : Prop :=
  (32 <= c)%N ∧ c ≠ 34%N ∧ c ≠ 92%N ∧ (c < 55296 ∨ 57343 < c)%N.

(** Reading a quoted string back, to show that quoting loses nothing: the
    two-character escapes, the [\u] escapes with four hexadecimal digits, and
    every other code unit as it is. *)
Definition hex_value (c : code_unit) : option N :=
  (if (48 <=? c) && (c <=? 57) then Some (c - 48)
   else if (97 <=? c) && (c <=? 102) then Some (c - 87)
   else None)%N.

Definition unescape (e : code_unit) : option code_unit :=
  (if e =? 98 then Some 8
   else if e =? 116 then Some 9
   else if e =? 110 then Some 10
   else if e =? 102 then Some 12
   else if e =? 114 then Some 13
   else if e =? 34 then Some 34
   else if e =? 92 then Some 92
   else None)%N.

Fixpoint unquote_units (s : jsstring) : option jsstring :=
  match s with
  | [] => Some []
  | c :: s1 =>
      if (c =? 92)%N then
        match s1 with
        | [] => None
        | e :: s2 =>
            if (e =? 117)%N then
              match s2 with
              | h1 :: h2 :: h3 :: h4 :: s3 =>
                  match hex_value h1, hex_value h2, hex_value h3, hex_value h4,
                        unquote_units s3 with
                  | Some a, Some b, Some c', Some d, Some r =>
                      Some ((a * 4096 + b * 256 + c' * 16 + d)%N :: r)
                  | _, _, _, _, _ => None
                  end
              | _ => None
              end
            else
              match unescape e, unquote_units s2 with
              | Some x, Some r => Some (x :: r)
              | _, _ => None
              end
        end
      else
        match unquote_units s1 with
        | Some r => Some (c :: r)
        | None => None
        end
  end.


(** * Properties *)

(** ** White space and [trim] *)

Section Trim.

Lemma trimStart_white (w s : jsstring) :
  all_white_space w -> trimStart (w ++ s) = trimStart s.
Proof.
  induction 1 as [|c w Hc _ IH]; simpl; [reflexivity|].
  rewrite Hc. exact IH.
Qed.

Lemma trimStart_head (c : code_unit) (s : jsstring) :
  is_white_space c = false -> trimStart (c :: s) = c :: s.
Proof. intros Hc. simpl. rewrite Hc. reflexivity. Qed.

Lemma trimStart_fixed (s : jsstring) : trimStart (trimStart s) = trimStart s.
Proof.
  induction s as [|c s IH]; simpl; [reflexivity|].
  destruct (is_white_space c) eqn:Hc; [exact IH|].
  simpl. rewrite Hc. reflexivity.
Qed.

(** What [trimStart] returns is a suffix of its argument that is empty or
    starts with a character that is not white space. *)
Lemma trimStart_spec (s : jsstring) :
  ∃ w, all_white_space w ∧ s = w ++ trimStart s ∧
       (trimStart s = [] ∨ ∃ c r, trimStart s = c :: r ∧ is_white_space c = false).
Proof.
  induction s as [|c s (w & Hw & Hs & Hhd)]; simpl.
  - exists []. repeat split; [constructor | by left].
  - destruct (is_white_space c) eqn:Hc.
    + exists (c :: w). repeat split; [by constructor | by rewrite Hs at 1 | exact Hhd].
    + exists []. repeat split; [constructor | right; eauto].
Qed.

Lemma trimEnd_white (s w : jsstring) :
  all_white_space w -> trimEnd (s ++ w) = trimEnd s.
Proof.
  intros Hw. unfold trimEnd. rewrite rev_app_distr.
  rewrite trimStart_white; [reflexivity|].
  apply Forall_forall. intros c Hc. apply list_elem_of_In, in_rev in Hc.
  eapply Forall_forall in Hw; [exact Hw|]. by apply list_elem_of_In.
Qed.

Lemma trimEnd_last (s : jsstring) (c : code_unit) :
  is_white_space c = false -> trimEnd (s ++ [c]) = s ++ [c].
Proof.
  intros Hc. unfold trimEnd. rewrite rev_app_distr. simpl. rewrite Hc.
  simpl. rewrite rev_involutive. reflexivity.
Qed.

Lemma trimEnd_fixed (s : jsstring) : trimEnd (trimEnd s) = trimEnd s.
Proof.
  unfold trimEnd. rewrite rev_involutive, trimStart_fixed. reflexivity.
Qed.

Lemma trimStart_keeps_last (l : jsstring) (c : code_unit) :
  is_white_space c = false -> ∃ r, trimStart (l ++ [c]) = r ++ [c].
Proof.
  intros Hc. induction l as [|a l IH]; simpl.
  - rewrite Hc. by exists [].
  - destruct (is_white_space a); [exact IH|]. by exists (a :: l).
Qed.

(** Stripping the end leaves the first character in place. *)
Lemma trimEnd_keeps_head (c : code_unit) (s : jsstring) :
  is_white_space c = false -> ∃ r, trimEnd (c :: s) = c :: r.
Proof.
  intros Hc. unfold trimEnd. simpl.
  destruct (trimStart_keeps_last (rev s) c Hc) as (r & ->).
  rewrite rev_app_distr. simpl. eauto.
Qed.

Lemma trim_fixed (s : jsstring) : trim (trim s) = trim s.
Proof.
  unfold trim.
  destruct (trimStart_spec s) as (_ & _ & _ & [Hnil | (c & r & Hcr & Hc)]).
  - rewrite Hnil. reflexivity.
  - rewrite Hcr.
    destruct (trimEnd_keeps_head c r Hc) as (r' & Hr').
    rewrite Hr', trimStart_head by exact Hc.
    rewrite <- Hr'. apply trimEnd_fixed.
Qed.

(** A string that starts and ends with characters that are not white space
    is what [trim] returns for it with white space put around it. *)
Lemma trim_surrounded (w1 w2 e : jsstring) (c1 c2 : code_unit) (r1 r2 : jsstring) :
  all_white_space w1 -> all_white_space w2 ->
  e = c1 :: r1 -> e = r2 ++ [c2] ->
  is_white_space c1 = false -> is_white_space c2 = false ->
  trim (w1 ++ e ++ w2) = e.
Proof.
  intros Hw1 Hw2 He1 He2 Hc1 Hc2. unfold trim.
  rewrite trimStart_white by exact Hw1.
  rewrite He1 at 1. simpl. rewrite Hc1.
  change (c1 :: r1 ++ w2) with ((c1 :: r1) ++ w2). rewrite <- He1.
  rewrite trimEnd_white by exact Hw2.
  rewrite He2 at 1. rewrite trimEnd_last by exact Hc2. by rewrite <- He2.
Qed.

End Trim.

(** ** What the matchers accept *)

Module RegExpFacts.
Import RegExp.

Lemma CharacterSetMatcher_nil (mem : code_unit -> bool) (i : nat) (c : continuation) :
  CharacterSetMatcher mem (MatchState i []) c = false.
Proof. reflexivity. Qed.

Lemma CharacterSetMatcher_cons (mem : code_unit -> bool) (i : nat)
      (ch : code_unit) (tl : jsstring) (c : continuation) :
  CharacterSetMatcher mem (MatchState i (ch :: tl)) c =
  if mem ch then c (MatchState (S i) tl) else false.
Proof. reflexivity. Qed.

Section Repeat.
Variable mem : code_unit -> bool.
Variable c : continuation.

(** A repeated character set accepts exactly the ways of splitting the
    input into a run of members, at least [min] long, and a remainder that
    the continuation accepts. The fuel is enough when it exceeds the
    length of the input left. *)
Lemma RepeatMatcher_set (fuel : nat) :
  ∀ (min i : nat) (s : jsstring),
    length s < fuel ->
    RepeatMatcher fuel (CharacterSetMatcher mem) min (MatchState i s) c = true ↔
    ∃ pre post, s = pre ++ post ∧ min <= length pre ∧
                Forall (fun ch => mem ch = true) pre ∧
                c (MatchState (i + length pre) post) = true.
Proof.
  induction fuel as [|fuel IH]; intros min i s Hlen; [lia|].
  cbn [RepeatMatcher].
  assert (Hiter :
    CharacterSetMatcher mem (MatchState i s)
      (fun y => if (min =? 0) && (endIndex y =? endIndex (MatchState i s))
                then false
                else RepeatMatcher fuel (CharacterSetMatcher mem) (pred min) y c) = true ↔
    ∃ ch pre post, s = (ch :: pre) ++ post ∧ min <= length (ch :: pre) ∧
                   Forall (fun ch => mem ch = true) (ch :: pre) ∧
                   c (MatchState (i + length (ch :: pre)) post) = true).
  { destruct s as [|ch tl].
    - rewrite CharacterSetMatcher_nil.
      split; [discriminate|]. intros (? & ? & ? & Habs & _). discriminate.
    - rewrite CharacterSetMatcher_cons. cbn [endIndex].
      rewrite (proj2 (Nat.eqb_neq (S i) i)) by lia.
      rewrite andb_false_r.
      destruct (mem ch) eqn:Hch.
      + rewrite IH by (simpl in Hlen; lia). split.
        * intros (pre & post & -> & Hmin & Hall & Hc).
          exists ch, pre, post. repeat split; simpl; try lia.
          -- by constructor.
          -- by rewrite Nat.add_succ_r.
        * intros (ch' & pre & post & Heq & Hmin & Hall & Hc).
          injection Heq as <- ->. exists pre, post.
          simpl in Hmin, Hc. rewrite Nat.add_succ_r in Hc.
          repeat split; [lia | by inversion Hall | exact Hc].
      + split; [discriminate|].
        intros (ch' & pre & post & Heq & _ & Hall & _).
        injection Heq as <- _. inversion Hall; congruence. }
  destruct (min =? 0) eqn:Hmin0; cbn [negb].
  - apply Nat.eqb_eq in Hmin0. subst min.
    destruct (CharacterSetMatcher mem (MatchState i s) _) eqn:Hm.
    + split; [intros _ | reflexivity].
      destruct (proj1 Hiter eq_refl) as (ch & pre & post & H). eauto.
    + split.
      * intros Hc. exists [], s. rewrite Nat.add_0_r.
        repeat split; [lia | constructor | exact Hc].
      * intros ([|ch pre] & post & Heq & Hmin & Hall & Hc).
        -- simpl in Heq, Hc. subst post. by rewrite Nat.add_0_r in Hc.
        -- assert (false = true); [|discriminate].
           apply Hiter. eauto 10.
  - apply Nat.eqb_neq in Hmin0. rewrite Hiter. split.
    + intros (ch & pre & post & H). eauto.
    + intros ([|ch pre] & post & Heq & Hmin & Hall & Hc); [simpl in Hmin; lia|].
      eauto 10.
Qed.
End Repeat.

Lemma compile_Plus_CharClass (negated : bool) (atoms : list class_atom)
      (i : nat) (s : jsstring) (c : continuation) :
  compile (Plus (CharClass negated atoms)) (MatchState i s) c = true ↔
  ∃ pre post, s = pre ++ post ∧ pre ≠ [] ∧
              Forall (fun ch => class_mem negated atoms ch = true) pre ∧
              c (MatchState (i + length pre) post) = true.
Proof.
  cbn [compile rest].
  rewrite RepeatMatcher_set by lia. split.
  - intros (pre & post & -> & Hmin & Hall & Hc). exists pre, post.
    repeat split; try assumption. intros ->. simpl in Hmin. lia.
  - intros (pre & post & -> & Hne & Hall & Hc). exists pre, post.
    repeat split; try assumption. destruct pre; [done | simpl; lia].
Qed.

Lemma compile_Seq (p q : pattern) (x : match_state) (c : continuation) :
  compile (Seq p q) x c = compile p x (fun y => compile q y c).
Proof. reflexivity. Qed.

Lemma compile_Char (ch : code_unit) (i : nat) (s : jsstring) (c : continuation) :
  compile (Char ch) (MatchState i s) c = true ↔
  ∃ tl, s = ch :: tl ∧ c (MatchState (S i) tl) = true.
Proof.
  cbn [compile]. unfold CharacterSetMatcher, advance. simpl.
  destruct s as [|d tl].
  - split; [discriminate | intros (? & ? & _); discriminate].
  - destruct (N.eqb_spec d ch) as [->|Hne].
    + split; [eauto|]. intros (tl' & Heq & Hc). by injection Heq as <-.
    + split; [discriminate|]. intros (tl' & Heq & _). congruence.
Qed.

Lemma compile_AssertEnd (i : nat) (s : jsstring) (c : continuation) :
  compile AssertEnd (MatchState i s) c = true ↔ s = [] ∧ c (MatchState i s) = true.
Proof.
  cbn [compile rest]. destruct s; [tauto|]. split; [discriminate | intros [? _]; discriminate].
Qed.

(** A pattern that starts with [^] can only match at index 0. *)
Lemma exec_loop_AssertStart (p : pattern) (s : jsstring) :
  ∀ i, exec_loop (Seq AssertStart p) (S i) s = false.
Proof.
  induction s as [|ch s IH]; intros i; simpl; [reflexivity|]. apply IH.
Qed.

Lemma test_AssertStart (p : pattern) (s : jsstring) :
  test (Seq AssertStart p) s = compile p (MatchState 0 s) (fun _ => true).
Proof.
  unfold test. destruct s as [|ch s]; simpl.
  - by destruct (compile p _ _).
  - rewrite exec_loop_AssertStart. by destruct (compile p _ _).
Qed.

End RegExpFacts.

(** ** The email pattern *)

Section Email.
Import RegExp RegExpFacts.

Lemma class_mem_segment (c : code_unit) :
  class_mem true [ClassEscape_s; ClassChar 64%N] c = true ↔ segment_char c.
Proof.
  unfold class_mem, segment_char. simpl.
  destruct (is_white_space c); simpl.
  - split; [discriminate | intros [? _]; discriminate].
  - destruct (N.eqb_spec c 64); simpl; intuition (try discriminate; try congruence).
Qed.

Lemma Forall_class_mem_segment (s : jsstring) :
  Forall (fun ch => class_mem true [ClassEscape_s; ClassChar 64%N] ch = true) s ↔
  Forall segment_char s.
Proof. apply Forall_proper; [|reflexivity]. intros c. apply class_mem_segment. Qed.

(** The pattern accepts the strings made of three non-empty runs of
    segment characters with [@] after the first and [.] after the second. *)
Lemma isValidEmail_segments (s : jsstring) :
  Js.isValidEmail s = true ↔
  ∃ l d t, splits_at_and_dot s l d t ∧
           Forall segment_char l ∧ Forall segment_char d ∧ Forall segment_char t.
Proof.
  unfold Js.isValidEmail, Js.emailRegex. rewrite test_AssertStart.
  rewrite compile_Seq, compile_Plus_CharClass. split.
  - intros (l & post & -> & Hl & Hlall & Hc).
    rewrite compile_Seq, compile_Char in Hc. destruct Hc as (post1 & -> & Hc).
    rewrite compile_Seq, compile_Plus_CharClass in Hc.
    destruct Hc as (d & post2 & -> & Hd & Hdall & Hc).
    rewrite compile_Seq, compile_Char in Hc. destruct Hc as (post3 & -> & Hc).
    rewrite compile_Seq, compile_Plus_CharClass in Hc.
    destruct Hc as (t & post4 & -> & Ht & Htall & Hc).
    rewrite compile_AssertEnd in Hc. destruct Hc as [-> _].
    exists l, d, t. rewrite app_nil_r. unfold splits_at_and_dot.
    split_and!; try assumption; try reflexivity; by apply Forall_class_mem_segment.
  - intros (l & d & t & (-> & Hl & Hd & Ht) & Hlall & Hdall & Htall).
    exists l, ([64%N] ++ d ++ [46%N] ++ t).
    split_and!; [reflexivity | assumption | by apply Forall_class_mem_segment |].
    rewrite compile_Seq, compile_Char. eexists. split; [reflexivity|].
    rewrite compile_Seq, compile_Plus_CharClass.
    exists d, ([46%N] ++ t).
    split_and!; [reflexivity | assumption | by apply Forall_class_mem_segment |].
    rewrite compile_Seq, compile_Char. eexists. split; [reflexivity|].
    rewrite compile_Seq, compile_Plus_CharClass.
    exists t, []. rewrite app_nil_r.
    split_and!; [reflexivity | assumption | by apply Forall_class_mem_segment |].
    by rewrite compile_AssertEnd.
Qed.

Lemma count_at_app (s1 s2 : jsstring) : count_at (s1 ++ s2) = count_at s1 + count_at s2.
Proof. unfold count_at. by rewrite filter_app, length_app. Qed.

Lemma count_at_zero (s : jsstring) : count_at s = 0 ↔ Forall (fun c => c ≠ 64%N) s.
Proof.
  unfold count_at. induction s as [|c s IH].
  - split; [constructor | reflexivity].
  - rewrite filter_cons. destruct (decide (c = 64%N)) as [->|Hne]; simpl.
    + split; [discriminate|]. inversion 1; congruence.
    + rewrite IH. split; [by constructor | by inversion 1].
Qed.

Lemma segments_no_white_space (l d t : jsstring) :
  Forall segment_char l -> Forall segment_char d -> Forall segment_char t ->
  no_white_space (l ++ [64%N] ++ d ++ [46%N] ++ t).
Proof.
  intros Hl Hd Ht. unfold no_white_space.
  assert (Hseg : ∀ x, Forall segment_char x -> Forall (fun c => is_white_space c = false) x).
  { intros x Hx. eapply Forall_impl; [exact Hx|]. by intros c [? _]. }
  repeat (apply Forall_app; split); auto; by repeat constructor.
Qed.

Lemma segments_count_at (l d t : jsstring) :
  Forall segment_char l -> Forall segment_char d -> Forall segment_char t ->
  count_at (l ++ [64%N] ++ d ++ [46%N] ++ t) = 1.
Proof.
  intros Hl Hd Ht.
  assert (Hseg : ∀ x, Forall segment_char x -> count_at x = 0).
  { intros x Hx. apply count_at_zero. eapply Forall_impl; [exact Hx|]. by intros c [_ ?]. }
  rewrite !count_at_app, (Hseg l), (Hseg d), (Hseg t) by assumption. reflexivity.
Qed.

(** With a single [@] and no white space, the parts around the [@] and the
    [.] are made of segment characters. *)
Lemma one_at_segments (l d t : jsstring) :
  no_white_space (l ++ [64%N] ++ d ++ [46%N] ++ t) ->
  count_at (l ++ [64%N] ++ d ++ [46%N] ++ t) = 1 ->
  Forall segment_char l ∧ Forall segment_char d ∧ Forall segment_char t.
Proof.
  unfold no_white_space. intros Hws Hcount.
  rewrite !Forall_app in Hws. destruct Hws as (Hl & _ & Hd & _ & Ht).
  rewrite !count_at_app in Hcount.
  change (count_at [64%N]) with 1 in Hcount.
  change (count_at [46%N]) with 0 in Hcount.
  assert (H0 : count_at l = 0 ∧ count_at d = 0 ∧ count_at t = 0) by lia.
  destruct H0 as (Hl0 & Hd0 & Ht0).
  apply count_at_zero in Hl0, Hd0, Ht0.
  assert (Hseg : ∀ x, Forall (fun c => is_white_space c = false) x ->
                      Forall (fun c => c ≠ 64%N) x -> Forall segment_char x).
  { intros x H1 H2. apply Forall_forall. intros c Hc. split.
    - by eapply Forall_forall in H1.
    - by eapply Forall_forall in H2. }
  auto.
Qed.

End Email.

(** ** The mobile menu *)

Module MenuFacts.
Import Menu.

Lemma present_inv (st : state) :
  elements_present st ->
  ∃ t m, navToggle st = Some t ∧ navMobile st = Some m.
Proof. intros [[t Ht] [m Hm]]. eauto. Qed.

Lemma present_registered (st : state) :
  elements_present st ↔ listeners_registered st = true.
Proof.
  unfold elements_present, listeners_registered. split.
  - intros [[t ->] [m ->]]. reflexivity.
  - destruct (navToggle st), (navMobile st); try discriminate. eauto.
Qed.

Lemma openMenu_ok (st : state) (t m : element) :
  navToggle st = Some t -> navMobile st = Some m ->
  openMenu st =
  Ok (State true (Some (Element ({[lit "active"]} ∪ classList t)))
            (Some (Element ({[lit "active"]} ∪ classList m))) (lit "hidden")).
Proof. intros Ht Hm. unfold openMenu. rewrite Ht, Hm. reflexivity. Qed.

Lemma closeMenu_ok (st : state) (t m : element) :
  navToggle st = Some t -> navMobile st = Some m ->
  closeMenu st =
  Ok (State false (Some (Element (classList t ∖ {[lit "active"]})))
            (Some (Element (classList m ∖ {[lit "active"]}))) (lit "")).
Proof. intros Ht Hm. unfold closeMenu. rewrite Ht, Hm. reflexivity. Qed.

Lemma openMenu_opened (st : state) :
  elements_present st -> ∃ st', openMenu st = Ok st' ∧ opened st'.
Proof.
  intros Hp. destruct (present_inv st Hp) as (t & m & Ht & Hm).
  eexists. split; [by apply openMenu_ok|].
  unfold opened, elements_present. simpl. split_and!; eauto; apply elem_of_union_l, elem_of_singleton; reflexivity.
Qed.

Lemma closeMenu_closed (st : state) :
  elements_present st -> ∃ st', closeMenu st = Ok st' ∧ closed st'.
Proof.
  intros Hp. destruct (present_inv st Hp) as (t & m & Ht & Hm).
  eexists. split; [by apply closeMenu_ok|].
  unfold closed, elements_present. simpl.
  split_and!; eauto; rewrite elem_of_difference, elem_of_singleton; tauto.
Qed.

Lemma opened_matches (st : state) : opened st -> flag_matches_markers st.
Proof. intros (Hf & _ & Ht & Hm). unfold flag_matches_markers. tauto. Qed.

Lemma closed_matches (st : state) : closed st -> flag_matches_markers st.
Proof.
  intros (Hf & _ & Ht & Hm). unfold flag_matches_markers. rewrite Hf.
  split; [discriminate | tauto].
Qed.

Lemma toggleMenu_flips (st : state) :
  elements_present st ->
  ∃ st', toggleMenu st = Ok st' ∧ elements_present st' ∧
         flag_matches_markers st' ∧ isMenuOpen st' = negb (isMenuOpen st).
Proof.
  intros Hp. unfold toggleMenu. destruct (isMenuOpen st).
  - destruct (closeMenu_closed st Hp) as (st' & Hst' & Hc).
    exists st'. split_and!; [exact Hst' | apply Hc | by apply closed_matches | apply Hc].
  - destruct (openMenu_opened st Hp) as (st' & Hst' & Ho).
    exists st'. split_and!; [exact Hst' | apply Ho | by apply opened_matches | apply Ho].
Qed.

(** A registered listener leaves the elements in place and the flag in
    step with the markers. *)
Lemma listener_preserves (ev : event) (st : state) :
  elements_present st -> flag_matches_markers st ->
  ∃ st', listener ev st = Ok st' ∧ elements_present st' ∧ flag_matches_markers st'.
Proof.
  intros Hp Hinv.
  assert (Hclose : ∃ st', closeMenu st = Ok st' ∧ elements_present st' ∧
                          flag_matches_markers st').
  { destruct (closeMenu_closed st Hp) as (st' & Hst' & Hc).
    exists st'. split_and!; [exact Hst' | apply Hc | by apply closed_matches]. }
  destruct ev as [| |key|w]; simpl.
  - destruct (toggleMenu_flips st Hp) as (st' & ? & ? & ? & _). eauto.
  - exact Hclose.
  - destruct (bool_decide (key = lit "Escape") && isMenuOpen st); eauto.
  - destruct ((768 <=? w)%Z && isMenuOpen st); eauto.
Qed.

Lemma initial_registered_or_idle (toggle mobile : option element) (overflow : jsstring) :
  registered_or_idle (initial toggle mobile overflow).
Proof.
  unfold registered_or_idle.
  destruct (listeners_registered (initial toggle mobile overflow)) eqn:Hr.
  - left. by apply present_registered.
  - right. by split.
Qed.

Lemma listener_present (ev : event) (st : state) :
  elements_present st -> ∃ st', listener ev st = Ok st' ∧ elements_present st'.
Proof.
  intros Hp.
  assert (Hclose : ∃ st', closeMenu st = Ok st' ∧ elements_present st').
  { destruct (closeMenu_closed st Hp) as (st' & Hst' & Hc). exists st'. split; [done | apply Hc]. }
  destruct ev as [| |key|w]; simpl.
  - destruct (toggleMenu_flips st Hp) as (st' & ? & ? & _). eauto.
  - exact Hclose.
  - destruct (bool_decide (key = lit "Escape") && isMenuOpen st); eauto.
  - destruct ((768 <=? w)%Z && isMenuOpen st); eauto.
Qed.

Lemma dispatch_registered_or_idle (ev : event) (st : state) :
  registered_or_idle st ->
  ∃ st', dispatch ev st = Ok st' ∧ registered_or_idle st'.
Proof.
  intros [Hp | [Hr Hf]]; unfold dispatch.
  - rewrite (proj1 (present_registered st) Hp).
    destruct (listener_present ev st Hp) as (st' & ? & ?). exists st'. split; [done | by left].
  - rewrite Hr. exists st. split; [reflexivity | by right].
Qed.

Lemma run_registered_or_idle (evs : list event) :
  ∀ st st', registered_or_idle st -> run evs st = Ok st' -> registered_or_idle st'.
Proof.
  induction evs as [|ev evs IH]; intros st st' Hst Hrun; simpl in Hrun.
  - by injection Hrun as <-.
  - destruct (dispatch_registered_or_idle ev st Hst) as (st1 & Hd & Hst1).
    rewrite Hd in Hrun. simpl in Hrun. eauto.
Qed.

(** The events of a run never throw. *)
Lemma run_total (evs : list event) :
  ∀ st, registered_or_idle st -> ∃ st', run evs st = Ok st'.
Proof.
  induction evs as [|ev evs IH]; intros st Hst; simpl; [eauto|].
  destruct (dispatch_registered_or_idle ev st Hst) as (st1 & -> & Hst1). simpl. eauto.
Qed.

End MenuFacts.

(** C5. The flag is [true] exactly when the marker is on both the toggle and
    the menu: this holds when the script is loaded on a page whose toggle and
    menu carry no marker, and, with both elements present, every operation on
    the menu (toggleMenu, openMenu, closeMenu and each event listener, the
    forced closes among them) succeeds and keeps it. *)
Theorem menu_flag_matches_markers :
  (∀ (t m : element) (overflow : jsstring),
      lit "active" ∉ classList t -> lit "active" ∉ classList m ->
      Menu.flag_matches_markers (Menu.initial (Some t) (Some m) overflow)) ∧
  (∀ (op : Menu.operation) (st : Menu.state),
      Menu.elements_present st -> Menu.flag_matches_markers st ->
      ∃ st', Menu.apply op st = Ok st' ∧
             Menu.elements_present st' ∧ Menu.flag_matches_markers st').
Proof.
  split.
  - intros t m overflow Ht Hm. unfold Menu.flag_matches_markers. simpl.
    split; [discriminate | tauto].
  - intros op st Hp Hinv. destruct op as [| | |ev]; simpl.
    + destruct (MenuFacts.toggleMenu_flips st Hp) as (st' & ? & ? & ? & _). eauto.
    + destruct (MenuFacts.openMenu_opened st Hp) as (st' & Hst' & Ho).
      exists st'. split_and!; [exact Hst' | apply Ho | by apply MenuFacts.opened_matches].
    + destruct (MenuFacts.closeMenu_closed st Hp) as (st' & Hst' & Hc).
      exists st'. split_and!; [exact Hst' | apply Hc | by apply MenuFacts.closed_matches].
    + unfold Menu.dispatch. rewrite (proj1 (MenuFacts.present_registered st) Hp).
      by apply MenuFacts.listener_preserves.
Qed.

Lemma menu_flag_matches_markers_witness :
  Menu.flag_matches_markers sample_menu ∧
  ∃ st', Menu.apply (Menu.Handle Menu.ToggleClick) sample_menu = Ok st' ∧
         Menu.elements_present st' ∧ Menu.flag_matches_markers st'.
Proof.
  assert (Hinit : Menu.flag_matches_markers sample_menu).
  { apply (proj1 menu_flag_matches_markers); apply not_elem_of_empty. }
  split; [exact Hinit|].
  apply (proj2 menu_flag_matches_markers (Menu.Handle Menu.ToggleClick) sample_menu).
  - split; simpl; eauto.
  - exact Hinit.
Defined.

(** C6. With the toggle and the menu present, toggleMenu (the listener of a
    click on the toggle) inverts the flag, so from closed it opens, and a
    second toggleMenu gives the flag its first value back. *)
Theorem toggleMenu_twice (st : Menu.state) :
  Menu.elements_present st ->
  ∃ st1 st2,
    Menu.toggleMenu st = Ok st1 ∧ Menu.dispatch Menu.ToggleClick st = Ok st1 ∧
    Menu.toggleMenu st1 = Ok st2 ∧ Menu.dispatch Menu.ToggleClick st1 = Ok st2 ∧
    Menu.isMenuOpen st1 = negb (Menu.isMenuOpen st) ∧
    (Menu.isMenuOpen st = false -> Menu.isMenuOpen st1 = true ∧ Menu.isMenuOpen st2 = false) ∧
    Menu.isMenuOpen st2 = Menu.isMenuOpen st.
Proof.
  intros Hp.
  destruct (MenuFacts.toggleMenu_flips st Hp) as (st1 & H1 & Hp1 & _ & Hf1).
  destruct (MenuFacts.toggleMenu_flips st1 Hp1) as (st2 & H2 & Hp2 & _ & Hf2).
  exists st1, st2. unfold Menu.dispatch.
  rewrite (proj1 (MenuFacts.present_registered st) Hp).
  rewrite (proj1 (MenuFacts.present_registered st1) Hp1). simpl.
  split_and!; try assumption.
  - intros Hclosed. rewrite Hf2, Hf1, Hclosed. by split.
  - rewrite Hf2, Hf1. apply negb_involutive.
Qed.

Lemma toggleMenu_twice_witness :
  ∃ st1 st2,
    Menu.toggleMenu sample_menu = Ok st1 ∧ Menu.dispatch Menu.ToggleClick sample_menu = Ok st1 ∧
    Menu.toggleMenu st1 = Ok st2 ∧ Menu.dispatch Menu.ToggleClick st1 = Ok st2 ∧
    Menu.isMenuOpen st1 = negb (Menu.isMenuOpen sample_menu) ∧
    (Menu.isMenuOpen sample_menu = false ->
     Menu.isMenuOpen st1 = true ∧ Menu.isMenuOpen st2 = false) ∧
    Menu.isMenuOpen st2 = Menu.isMenuOpen sample_menu.
Proof.
  apply (toggleMenu_twice sample_menu). split; simpl; eauto.
Defined.

(** C7. In every state the script can be in (after any events since it was
    loaded, on any page), a click on a link of the mobile menu, an Escape
    keydown while the menu is open, and a resize to a width of 768 or more
    while the menu is open are handled without an exception and leave the
    menu closed. *)
Theorem forced_close (toggle mobile : option element) (overflow : jsstring)
        (evs : list Menu.event) (st : Menu.state) (ev : Menu.event) :
  Menu.run evs (Menu.initial toggle mobile overflow) = Ok st ->
  forces_closed ev st ->
  ∃ st', Menu.dispatch ev st = Ok st' ∧ Menu.isMenuOpen st' = false.
Proof.
  intros Hrun Hev.
  pose proof (MenuFacts.run_registered_or_idle evs _ st
                (MenuFacts.initial_registered_or_idle toggle mobile overflow) Hrun)
    as [Hp | [Hr Hf]]; unfold Menu.dispatch.
  - rewrite (proj1 (MenuFacts.present_registered st) Hp).
    destruct (MenuFacts.closeMenu_closed st Hp) as (st' & Hst' & Hc & _).
    exists st'. split; [|exact Hc].
    destruct ev as [| |key|w]; simpl in Hev |- *.
    + contradiction.
    + exact Hst'.
    + destruct Hev as [-> ->]. rewrite bool_decide_eq_true_2 by reflexivity. exact Hst'.
    + destruct Hev as [Hw ->]. rewrite (proj2 (Z.leb_le 768 w) Hw). exact Hst'.
  - rewrite Hr. eauto.
Qed.

Lemma forced_close_witness :
  ∃ st', Menu.dispatch (Menu.KeyDown (lit "Escape")) sample_open_menu = Ok st' ∧
         Menu.isMenuOpen st' = false.
Proof.
  apply (forced_close (Some (Element ∅)) (Some (Element ∅)) (lit "")
                      [Menu.ToggleClick] sample_open_menu (Menu.KeyDown (lit "Escape"))).
  - reflexivity.
  - split; reflexivity.
Defined.

(** ** Reveal animations *)

Module RevealFacts.
Import Reveal.

Lemma visible_add_class (e el : nat) (st : state) :
  visible (add_class (lit "visible") e st) el ↔ e = el ∨ visible st el.
Proof.
  unfold visible, classList_of, add_class. simpl.
  destruct (decide (e = el)) as [->|Hne].
  - rewrite lookup_insert_eq. simpl. rewrite elem_of_union, elem_of_singleton. tauto.
  - rewrite lookup_insert_ne by exact Hne. tauto.
Qed.

Lemma on_entry_visible (st : state) (en : entry) (el : nat) :
  visible (on_entry st en) el ↔
  (isIntersecting en = true ∧ target en = el) ∨ visible st el.
Proof.
  unfold on_entry. destruct (isIntersecting en).
  - change (visible (unobserve (target en) ?s) el) with (visible s el).
    rewrite visible_add_class. tauto.
  - split; [tauto | intros [[? _]|?]; [discriminate | assumption]].
Qed.

Lemma on_entry_targets (st : state) (en : entry) (el : nat) :
  el ∈ targets (on_entry st en) ↔
  el ∈ targets st ∧ ¬ (isIntersecting en = true ∧ target en = el).
Proof.
  unfold on_entry. destruct (isIntersecting en); simpl.
  - rewrite elem_of_difference, elem_of_singleton. split.
    + intros [? Hne]. split; [assumption|]. intros [_ ?]. congruence.
    + intros [? Hne]. split; [assumption|]. intros ->. by apply Hne.
  - split; [intros ?; split; [assumption | intros [? _]; discriminate] | tauto].
Qed.

Lemma callback_visible_mono (entries : list entry) (el : nat) :
  ∀ st, visible st el -> visible (observer_callback entries st) el.
Proof.
  unfold observer_callback.
  induction entries as [|en entries IH]; intros st Hv; simpl; [assumption|].
  apply IH, on_entry_visible. by right.
Qed.

Lemma callback_targets_shrink (entries : list entry) (el : nat) :
  ∀ st, el ∉ targets st -> el ∉ targets (observer_callback entries st).
Proof.
  unfold observer_callback.
  induction entries as [|en entries IH]; intros st Hn; simpl; [assumption|].
  apply IH. rewrite on_entry_targets. tauto.
Qed.

(** A delivery that reports [el] as intersecting leaves it visible and no
    longer observed. *)
Lemma callback_marks (entries : list entry) (el : nat) :
  ∀ st, marks el entries = true ->
        visible (observer_callback entries st) el ∧
        el ∉ targets (observer_callback entries st).
Proof.
  unfold observer_callback, marks.
  induction entries as [|en entries IH]; intros st Hm; simpl in Hm |- *; [discriminate|].
  destruct (isIntersecting en && (target en =? el)) eqn:Hen; simpl in Hm.
  - apply andb_true_iff in Hen as [Hi Ht]. apply Nat.eqb_eq in Ht.
    split.
    + apply (callback_visible_mono entries el), on_entry_visible. by left.
    + apply (callback_targets_shrink entries el). rewrite on_entry_targets.
      intros [_ Hno]. by apply Hno.
  - by apply IH.
Qed.

(** The observer does not report an element it does not observe. *)
Lemma step_unobserved_unmarked (st st1 : state) (b : list entry) (el : nat) :
  step st b st1 -> el ∉ targets st -> marks el b = false.
Proof.
  intros Hstep Hn. destruct Hstep as [st entries Hobs].
  unfold marks. apply not_true_is_false. intros Hex.
  apply existsb_exists in Hex as (en & Hin & Hen).
  apply andb_true_iff in Hen as [_ Ht]. apply Nat.eqb_eq in Ht. subst el.
  apply Hn. eapply Forall_forall in Hobs; [exact Hobs|]. by apply list_elem_of_In.
Qed.

Lemma markings_cons (el : nat) (b : list entry) (bs : list (list entry)) :
  markings el (b :: bs) = (if marks el b then 1 else 0) + markings el bs.
Proof.
  unfold markings. rewrite filter_cons.
  destruct (marks el b); case_decide; simpl; congruence.
Qed.

Lemma steps_unobserved (st st' : state) (batches : list (list entry)) (el : nat) :
  steps st batches st' -> el ∉ targets st ->
  markings el batches = 0 ∧ el ∉ targets st'.
Proof.
  induction 1 as [st | st st1 st2 b bs Hstep _ IH]; intros Hn; [by split|].
  rewrite markings_cons, (step_unobserved_unmarked st st1 b el Hstep Hn).
  apply IH. destruct Hstep. by apply callback_targets_shrink.
Qed.

Lemma steps_visible_mono (st st' : state) (batches : list (list entry)) (el : nat) :
  steps st batches st' -> visible st el -> visible st' el.
Proof.
  induction 1 as [st | st st1 st2 b bs Hstep _ IH]; intros Hv; [assumption|].
  apply IH. destruct Hstep. by apply callback_visible_mono.
Qed.

End RevealFacts.

(** C8. Along any sequence of deliveries of the observer, for every element:
    at most one delivery puts the marker on it (after that delivery it is
    visible and no longer observed, so no later delivery is about it), and an
    element that is visible at some point is visible ever after. *)
Theorem reveal_once_and_for_all (el : nat) (st st' : Reveal.state)
        (batches : list (list Reveal.entry)) :
  Reveal.steps st batches st' ->
  Reveal.markings el batches <= 1 ∧
  (Reveal.markings el batches = 1 -> Reveal.visible st' el ∧ el ∉ Reveal.targets st') ∧
  (Reveal.visible st el -> Reveal.visible st' el).
Proof.
  intros Hsteps. split_and!.
  - induction Hsteps as [st | st st1 st2 b bs Hstep Hrest IH]; [unfold Reveal.markings; simpl; lia|].
    rewrite RevealFacts.markings_cons. destruct (Reveal.marks el b) eqn:Hm; [|simpl; exact IH].
    destruct Hstep as [st entries _].
    destruct (RevealFacts.callback_marks entries el st Hm) as [_ Hn].
    destruct (RevealFacts.steps_unobserved _ _ _ el Hrest Hn) as [-> _]. simpl. lia.
  - induction Hsteps as [st | st st1 st2 b bs Hstep Hrest IH]; [discriminate|].
    rewrite RevealFacts.markings_cons. destruct (Reveal.marks el b) eqn:Hm.
    + intros _. destruct Hstep as [st entries _].
      destruct (RevealFacts.callback_marks entries el st Hm) as [Hv Hn]. split.
      * by eapply RevealFacts.steps_visible_mono.
      * by eapply RevealFacts.steps_unobserved.
    + simpl. exact IH.
  - by apply (RevealFacts.steps_visible_mono st st' batches).
Qed.

Lemma reveal_once_and_for_all_witness :
  Reveal.markings 0 sample_deliveries <= 1 ∧
  (Reveal.markings 0 sample_deliveries = 1 ->
   Reveal.visible (Reveal.observer_callback [Reveal.Entry 1 true]
                     (Reveal.observer_callback [Reveal.Entry 0 true; Reveal.Entry 1 false]
                        sample_reveal)) 0 ∧
   0 ∉ Reveal.targets (Reveal.observer_callback [Reveal.Entry 1 true]
                         (Reveal.observer_callback [Reveal.Entry 0 true; Reveal.Entry 1 false]
                            sample_reveal))) ∧
  (Reveal.visible sample_reveal 0 ->
   Reveal.visible (Reveal.observer_callback [Reveal.Entry 1 true]
                     (Reveal.observer_callback [Reveal.Entry 0 true; Reveal.Entry 1 false]
                        sample_reveal)) 0).
Proof.
  apply (reveal_once_and_for_all 0 sample_reveal _ sample_deliveries).
  unfold sample_deliveries.
  eapply Reveal.steps_cons; [|eapply Reveal.steps_cons; [|apply Reveal.steps_nil]].
  - apply Reveal.step_deliver. repeat apply Forall_cons_2; [| |apply Forall_nil_2]; simpl.
    + apply elem_of_union_r, elem_of_union_l, elem_of_singleton. reflexivity.
    + apply elem_of_union_l, elem_of_singleton. reflexivity.
  - apply Reveal.step_deliver. repeat apply Forall_cons_2; [|apply Forall_nil_2]; simpl.
    apply elem_of_difference. split.
    + apply elem_of_union_l, elem_of_singleton. reflexivity.
    + rewrite elem_of_singleton. discriminate.
Defined.

(** ** The signup form *)

Module FormFacts.
Import Form.

Lemma showMessage_emailInput_value (message type : jsstring) (st : state) :
  emailInput_value (showMessage message type st) = emailInput_value st.
Proof. unfold showMessage. destruct (signupMessage st); reflexivity. Qed.

Lemma showMessage_button_textContent (message type : jsstring) (st : state) :
  button_textContent (showMessage message type st) = button_textContent st.
Proof. unfold showMessage. destruct (signupMessage st); reflexivity. Qed.

Lemma showMessage_button_disabled (message type : jsstring) (st : state) :
  button_disabled (showMessage message type st) = button_disabled st.
Proof. unfold showMessage. destruct (signupMessage st); reflexivity. Qed.

Lemma showMessage_signupMessage (message type : jsstring) (st : state) :
  signupMessage (showMessage message type st) = shown message type (signupMessage st).
Proof.
  unfold showMessage, shown.
  destruct (signupMessage st) eqn:Hm; simpl; rewrite ?Hm; reflexivity.
Qed.

(** [showMessage] starts nothing but its own timer. *)
Lemma showMessage_pending (message type : jsstring) (st : state) :
  ∃ extra, pending (showMessage message type st) = pending st ++ extra ∧
           Forall (fun t => is_submission t = false) extra.
Proof.
  unfold showMessage. destruct (signupMessage st).
  - exists [Timeout ClearMessage 5000]. split; [reflexivity|].
    apply Forall_cons_2; [reflexivity | apply Forall_nil_2].
  - exists []. split; [by rewrite app_nil_r | constructor].
Qed.

Lemma showMessage_set_emailInput_value (message type v : jsstring) (st : state) :
  showMessage message type (set_emailInput_value v st) =
  set_emailInput_value v (showMessage message type st).
Proof. unfold showMessage. simpl. destruct (signupMessage st); reflexivity. Qed.

(** An accepted address starts and ends with a character that is not white
    space. *)
Lemma valid_ends (e : jsstring) :
  Js.isValidEmail e = true ->
  ∃ c1 r1 c2 r2, e = c1 :: r1 ∧ e = r2 ++ [c2] ∧
                 is_white_space c1 = false ∧ is_white_space c2 = false.
Proof.
  intros He. apply isValidEmail_segments in He
    as (l & d & t & (-> & Hl & _ & Ht) & Hlall & _ & Htall).
  destruct l as [|c1 l]; [done|].
  destruct (exists_last Ht) as (t' & c2 & ->).
  exists c1, (l ++ [64%N] ++ d ++ [46%N] ++ t' ++ [c2]), c2,
         ((c1 :: l) ++ [64%N] ++ d ++ [46%N] ++ t').
  split_and!.
  - reflexivity.
  - by rewrite <- !app_assoc.
  - inversion Hlall as [|? ? [? _] _]. assumption.
  - apply Forall_app in Htall as [_ Hc2]. inversion Hc2 as [|? ? [? _] _]. assumption.
Qed.

Lemma trim_valid_surrounded (w1 e w2 : jsstring) :
  all_white_space w1 -> all_white_space w2 -> Js.isValidEmail e = true ->
  trim (w1 ++ e ++ w2) = e.
Proof.
  intros Hw1 Hw2 He.
  destruct (valid_ends e He) as (c1 & r1 & c2 & r2 & He1 & He2 & Hc1 & Hc2).
  by eapply trim_surrounded.
Qed.

End FormFacts.

(** *** How the request ends *)

Section Settle.
Import Form Scripts.

Lemma on_settle_succeeded (originalText : jsstring) (o : fetch_outcome) (st : state) :
  succeeded o ->
  on_settle originalText o st =
  set_button_disabled false
    (set_button_textContent originalText
       (set_emailInput_value (lit "")
          (showMessage (lit "You're on the list!") (lit "success") st))).
Proof. intros ->. reflexivity. Qed.

Lemma on_settle_request_failed (originalText : jsstring) (o : fetch_outcome) (st : state) :
  request_failed o ->
  on_settle originalText o st =
  set_button_disabled false
    (set_button_textContent originalText
       (showMessage (lit "Something went wrong. Please try again.") (lit "error") st)).
Proof. intros [-> | [b ->]]; reflexivity. Qed.

(** A response with an OK status whose body is not JSON ends like a failed
    request. *)
Lemma on_settle_unreadable (originalText : jsstring) (st : state) :
  on_settle originalText (Responded (Response true false)) st =
  set_button_disabled false
    (set_button_textContent originalText
       (showMessage (lit "Something went wrong. Please try again.") (lit "error") st)).
Proof. reflexivity. Qed.

End Settle.

(** ** The claims about validation *)

(** C1 (amended). isValidEmail accepts a string exactly when it has no white
    space, exactly one [@], and splits as local-part [@] domain [.] tld with
    the three parts not empty. *)
Theorem isValidEmail_accepts_iff (s : jsstring) :
  Js.isValidEmail s = true ↔ spec_email_shape s ∧ count_at s = 1.
Proof.
  rewrite isValidEmail_segments. split.
  - intros (l & d & t & Hsplit & Hl & Hd & Ht).
    pose proof Hsplit as (-> & _). split; [split|].
    + by apply segments_no_white_space.
    + eauto.
    + by apply segments_count_at.
  - intros [[Hws (l & d & t & Hsplit)] Hcount].
    exists l, d, t. split; [exact Hsplit|].
    destruct Hsplit as (-> & _). by apply one_at_segments.
Qed.

(** C1 as stated fails: [a@b@c.d] has no white space, an [@], a [.] after it
    and no empty part, and isValidEmail rejects it. *)
Lemma isValidEmail_rejects_second_at :
  spec_email_shape (lit "a@b@c.d") ∧ Js.isValidEmail (lit "a@b@c.d") = false.
Proof.
  split; [split|reflexivity].
  - unfold no_white_space. repeat (apply Forall_cons_2; [reflexivity|]). apply Forall_nil_2.
  - exists (lit "a"), (lit "b@c"), (lit "d"). unfold splits_at_and_dot.
    split_and!; [reflexivity | discriminate..].
Qed.

(** C9. The two files validate alike: on every string isValidEmail of
    [src/scripts/main.js] returns what isValidEmail of [src/js/main.js]
    returns. *)
Theorem isValidEmail_variants_agree (email : jsstring) :
  Scripts.isValidEmail email = Js.isValidEmail email.
Proof. reflexivity. Qed.

(** ** The claims about the submit listener *)




(** C3. In the file that posts the request: when the trimmed value of the
    field is valid, the listener leaves the field as it is and starts the
    request with the label the button had; whenever that request fails (no
    response, or a response whose status is not OK), the message area (where
    the page has one) shows the retry message, the button has its first label
    again and is enabled, and the field keeps the value it has. *)
Theorem submit_then_failure (st : Form.state) :
  Scripts.isValidEmail (trim (Form.emailInput_value st)) = true ->
  Form.emailInput_value (Scripts.on_submit st) = Form.emailInput_value st ∧
  Form.pending (Scripts.on_submit st) =
    Form.pending st ++
      [Form.Fetch (Scripts.signup_request (trim (Form.emailInput_value st)))
                  (Form.button_textContent st)] ∧
  ∀ (st' : Form.state) (i : nat) (req : Form.request) (o : Scripts.fetch_outcome),
    Form.pending st' !! i = Some (Form.Fetch req (Form.button_textContent st)) ->
    Scripts.request_failed o ->
    Form.signupMessage (Scripts.fetch_settles i o st') =
      shown (lit "Something went wrong. Please try again.") (lit "error")
            (Form.signupMessage st') ∧
    Form.button_textContent (Scripts.fetch_settles i o st') = Form.button_textContent st ∧
    Form.button_disabled (Scripts.fetch_settles i o st') = false ∧
    Form.emailInput_value (Scripts.fetch_settles i o st') = Form.emailInput_value st'.
Proof.
  intros Hvalid. unfold Scripts.on_submit. rewrite Hvalid. simpl.
  split_and!; try reflexivity.
  intros st' i req o Hi Ho. unfold Scripts.fetch_settles. rewrite Hi.
  rewrite on_settle_request_failed by exact Ho. simpl.
  split_and!; try reflexivity.
  - by rewrite FormFacts.showMessage_signupMessage.
  - by rewrite FormFacts.showMessage_emailInput_value.
Qed.

Lemma submit_then_failure_witness :
  Scripts.isValidEmail (trim (Form.emailInput_value (sample_form (lit "user@example.com")))) = true ∧
  Scripts.request_failed Scripts.NetworkError ∧
  Form.emailInput_value
    (Scripts.fetch_settles 0 Scripts.NetworkError
       (Scripts.on_submit (sample_form (lit "user@example.com")))) =
  lit "user@example.com".
Proof.
  destruct (submit_then_failure (sample_form (lit "user@example.com")) eq_refl)
    as (_ & _ & H).
  split; [reflexivity|]. split; [by left|].
  destruct (H (Scripts.on_submit (sample_form (lit "user@example.com"))) 0 _
              Scripts.NetworkError eq_refl (or_introl eq_refl)) as (_ & _ & _ & Hv).
  exact Hv.
Defined.

(** C4. When the trimmed value of the field is not valid, the listener of
    either file shows the error message in the message area (where the page
    has one) and returns: the label of the button, its disabled flag and the
    value of the field are what they were, and nothing has been started but
    the timer that clears the message, so no request and no simulated
    delay. *)
Theorem submit_invalid (st : Form.state) :
  (Js.isValidEmail (trim (Form.emailInput_value st)) = false ->
   Form.signupMessage (Js.on_submit st) =
     shown (lit "Please enter a valid email address.") (lit "error") (Form.signupMessage st) ∧
   Form.button_textContent (Js.on_submit st) = Form.button_textContent st ∧
   Form.button_disabled (Js.on_submit st) = Form.button_disabled st ∧
   Form.emailInput_value (Js.on_submit st) = Form.emailInput_value st ∧
   ∃ extra, Form.pending (Js.on_submit st) = Form.pending st ++ extra ∧
            Forall (fun t => Form.is_submission t = false) extra) ∧
  (Scripts.isValidEmail (trim (Form.emailInput_value st)) = false ->
   Form.signupMessage (Scripts.on_submit st) =
     shown (lit "Please enter a valid email address.") (lit "error") (Form.signupMessage st) ∧
   Form.button_textContent (Scripts.on_submit st) = Form.button_textContent st ∧
   Form.button_disabled (Scripts.on_submit st) = Form.button_disabled st ∧
   Form.emailInput_value (Scripts.on_submit st) = Form.emailInput_value st ∧
   ∃ extra, Form.pending (Scripts.on_submit st) = Form.pending st ++ extra ∧
            Forall (fun t => Form.is_submission t = false) extra).
Proof.
  split; intros Hinvalid.
  - unfold Js.on_submit. rewrite Hinvalid. simpl.
    split_and!.
    + apply FormFacts.showMessage_signupMessage.
    + apply FormFacts.showMessage_button_textContent.
    + apply FormFacts.showMessage_button_disabled.
    + apply FormFacts.showMessage_emailInput_value.
    + apply FormFacts.showMessage_pending.
  - unfold Scripts.on_submit. rewrite Hinvalid. simpl.
    split_and!.
    + apply FormFacts.showMessage_signupMessage.
    + apply FormFacts.showMessage_button_textContent.
    + apply FormFacts.showMessage_button_disabled.
    + apply FormFacts.showMessage_emailInput_value.
    + apply FormFacts.showMessage_pending.
Qed.

Lemma submit_invalid_witness :
  Js.isValidEmail (trim (Form.emailInput_value (sample_form (lit "not-an-email")))) = false ∧
  Form.button_disabled (Js.on_submit (sample_form (lit "not-an-email"))) = false ∧
  Form.button_disabled (Scripts.on_submit (sample_form (lit "not-an-email"))) = false.
Proof.
  destruct (submit_invalid (sample_form (lit "not-an-email"))) as [HJ HS].
  split; [reflexivity|]. split.
  - apply (HJ eq_refl).
  - apply (HS eq_refl).
Defined.

(** C10. The listener of either file does the same on a field value and on
    the trimmed value: run on the state whose field holds the trimmed value,
    it gives the state it gives on the value as typed, but for the field
    itself. The body of the request is the serialisation of the trimmed
    value. A valid address with white space around it is accepted: the
    button is disabled and the submission is started with the address
    without that white space. *)
Theorem submit_ignores_outer_white_space (st : Form.state) :
  Js.on_submit (Form.set_emailInput_value (trim (Form.emailInput_value st)) st) =
    Form.set_emailInput_value (trim (Form.emailInput_value st)) (Js.on_submit st) ∧
  Scripts.on_submit (Form.set_emailInput_value (trim (Form.emailInput_value st)) st) =
    Form.set_emailInput_value (trim (Form.emailInput_value st)) (Scripts.on_submit st) ∧
  (Scripts.isValidEmail (trim (Form.emailInput_value st)) = true ->
   ∃ req, Form.pending (Scripts.on_submit st) =
            Form.pending st ++ [Form.Fetch req (Form.button_textContent st)] ∧
          Form.body req =
            JSON.stringify_object1 (lit "email") (trim (Form.emailInput_value st))) ∧
  (∀ w1 e w2 : jsstring,
      all_white_space w1 -> all_white_space w2 -> Js.isValidEmail e = true ->
      Form.emailInput_value st = w1 ++ e ++ w2 ->
      Form.button_disabled (Js.on_submit st) = true ∧
      Form.pending (Js.on_submit st) =
        Form.pending st ++
          [Form.Timeout (Form.SimulatedResponse (Form.button_textContent st)) 1000] ∧
      Form.button_disabled (Scripts.on_submit st) = true ∧
      Form.pending (Scripts.on_submit st) =
        Form.pending st ++
          [Form.Fetch (Scripts.signup_request e) (Form.button_textContent st)]).
Proof.
  split_and!.
  - unfold Js.on_submit. simpl. rewrite trim_fixed.
    destruct (Js.isValidEmail (trim (Form.emailInput_value st))); simpl; [reflexivity|].
    apply FormFacts.showMessage_set_emailInput_value.
  - unfold Scripts.on_submit. simpl. rewrite trim_fixed.
    destruct (Scripts.isValidEmail (trim (Form.emailInput_value st))); simpl; [reflexivity|].
    apply FormFacts.showMessage_set_emailInput_value.
  - intros Hvalid. unfold Scripts.on_submit. rewrite Hvalid. simpl.
    eexists. split; reflexivity.
  - intros w1 e w2 Hw1 Hw2 He Hv.
    assert (Htrim : trim (Form.emailInput_value st) = e).
    { rewrite Hv. by apply FormFacts.trim_valid_surrounded. }
    unfold Js.on_submit, Scripts.on_submit. rewrite Htrim.
    change (Scripts.isValidEmail e) with (Js.isValidEmail e).
    rewrite He. simpl. by split_and!.
Qed.

Lemma submit_ignores_outer_white_space_witness :
  all_white_space (lit "  ") ∧ all_white_space (lit " ") ∧
  Js.isValidEmail (lit "a@b.c") = true ∧
  Form.pending (Scripts.on_submit (sample_form (lit "  a@b.c "))) =
    [Form.Fetch (Scripts.signup_request (lit "a@b.c")) (lit "Notify me")].
Proof.
  assert (Hw1 : all_white_space (lit "  ")).
  { repeat (apply Forall_cons_2; [reflexivity|]). apply Forall_nil_2. }
  assert (Hw2 : all_white_space (lit " ")).
  { repeat (apply Forall_cons_2; [reflexivity|]). apply Forall_nil_2. }
  split_and!; [exact Hw1 | exact Hw2 | reflexivity |].
  destruct (submit_ignores_outer_white_space (sample_form (lit "  a@b.c ")))
    as (_ & _ & Hbody & H).
  destruct (Hbody eq_refl) as (req & _ & _).
  destruct (H (lit "  ") (lit "a@b.c") (lit " ") Hw1 Hw2 eq_refl eq_refl)
    as (_ & _ & _ & Hp).
  exact Hp.
Defined.

(** ** Checks on sample inputs *)

Example isValidEmail_user : Js.isValidEmail (lit "user@example.com") = true.
Proof. reflexivity. Qed.

Example isValidEmail_no_at : Js.isValidEmail (lit "not-an-email") = false.
Proof. reflexivity. Qed.

Example isValidEmail_inner_space : Js.isValidEmail (lit "a b@c.d") = false.
Proof. reflexivity. Qed.

Example isValidEmail_dot_last : Js.isValidEmail (lit "a@b.") = false.
Proof. reflexivity. Qed.

Example isValidEmail_dot_first : Js.isValidEmail (lit "a@.b.c") = true.
Proof. reflexivity. Qed.

Example trim_both_ends : trim (lit "  a@b.c  ") = lit "a@b.c".
Proof. reflexivity. Qed.

Example trim_no_break_space : trim [160%N; 97%N; 65279%N] = [97%N].
Proof. reflexivity. Qed.

Example signup_request_body :
  Form.body (Scripts.signup_request (lit "a@b.c")) =
  lit "{" ++ [34%N] ++ lit "email" ++ [34%N] ++ lit ":" ++
  [34%N] ++ lit "a@b.c" ++ [34%N] ++ lit "}".
Proof. reflexivity. Qed.

Example quote_control_and_surrogate :
  JSON.quote_units [11%N; 55357%N; 56832%N; 55357%N; 92%N] =
  lit "\u000b" ++ [55357%N; 56832%N] ++ lit "\ud83d" ++ lit "\\".
Proof. reflexivity. Qed.

Example fallback_shows_all :
  Reveal.visible (Reveal.setupRevealAnimations false [0; 1] (Reveal.State ∅ ∅)) 1.
Proof.
  unfold Reveal.setupRevealAnimations. simpl.
  apply RevealFacts.visible_add_class. by left.
Qed.

(** * Further properties of the script *)

(** ** The navigation bar on scroll *)

Module NavScrollFacts.
Import NavScroll.

Lemma above_threshold (y : QArith_base.Q) :
negb (QArith_base.Qle_bool y scrollThreshold) = true ↔ QArith_base.Qlt scrollThreshold y.
Proof.
rewrite negb_true_iff. split.
- intros Hle. apply QArith_base.Qnot_le_lt. intros H.
  apply QArith_base.Qle_bool_iff in H. congruence.
- intros Hlt. apply not_true_is_false. intros H.
  apply QArith_base.Qle_bool_iff in H.
  by apply (QArith_base.Qlt_not_le _ _ Hlt).
Qed.

Lemma handleScroll_present (st : state) (n : element) :
nav st = Some n ->
∃ n', handleScroll st =
        Ok (State (Some n') (scrollY st) (scrollY st) (ticking st) (frames st)) ∧
      (lit "scrolled" ∈ classList n' ↔ QArith_base.Qlt scrollThreshold (scrollY st)) ∧
      ∀ token, token ≠ lit "scrolled" -> (token ∈ classList n' ↔ token ∈ classList n).
Proof.
intros Hn. unfold handleScroll. rewrite Hn.
destruct (negb (QArith_base.Qle_bool (scrollY st) scrollThreshold)) eqn:Hgt; simpl.
- eexists. split; [reflexivity|]. simpl. split.
  + rewrite <- above_threshold, Hgt, elem_of_union, elem_of_singleton. tauto.
  + intros token Hne. rewrite elem_of_union, elem_of_singleton. tauto.
- eexists. split; [reflexivity|]. simpl. split.
  + rewrite <- above_threshold, Hgt, elem_of_difference, elem_of_singleton.
    split; [tauto | discriminate].
  + intros token Hne. rewrite elem_of_difference, elem_of_singleton. tauto.
Qed.

Lemma handleScroll_absent (st : state) :
nav st = None -> handleScroll st = Throw TypeError.
Proof.
intros Hn. unfold handleScroll. rewrite Hn.
by destruct (negb (QArith_base.Qle_bool (scrollY st) scrollThreshold)).
Qed.

Lemma setupNavScroll_settled (n : element) (y : QArith_base.Q) :
∃ st, setupNavScroll (Some n) y = Ok st ∧ settled st ∧ frames st = 0.
Proof.
unfold setupNavScroll.
destruct (handleScroll_present (initial (Some n) y) n eq_refl) as (n' & -> & Hm & _).
eexists. split; [reflexivity|]. unfold settled, marker_matches_position. simpl.
split_and!; [eauto | lia | split; [discriminate | lia] | by intros _ | reflexivity].
Qed.

Lemma frame_callback_settled (st : state) :
is_Some (nav st) ->
is_Some (nav (frame_callback st)) ∧ frames (frame_callback st) = frames st ∧
ticking (frame_callback st) = false ∧ marker_matches_position (frame_callback st).
Proof.
intros [n Hn]. unfold frame_callback.
destruct (handleScroll_present st n Hn) as (n' & -> & Hm & _).
unfold marker_matches_position. simpl. split_and!; eauto.
Qed.

Lemma handle_settled (ev : event) (st : state) : settled st -> settled (handle ev st).
Proof.
intros (Hnav & Hle & Htick & Hmark). destruct ev as [y|]; simpl.
- unfold on_scroll. simpl. destruct (ticking st) eqn:Ht; simpl.
  + assert (frames st = 1) by tauto.
    unfold settled. simpl.
    split_and!; [assumption | lia | tauto | lia].
  + unfold settled. simpl.
    assert (frames st = 0).
    { destruct (decide (frames st = 1)) as [H1|]; [|lia]. apply Htick in H1. discriminate. }
    split_and!; [assumption | lia | split; [lia | done] | lia].
- destruct (frames st) as [|[|k]] eqn:Hf; [| |lia]; simpl.
  + unfold settled, marker_matches_position in *. simpl.
    split_and!; [assumption | lia | rewrite Htick; lia | by intros _; apply Hmark].
  + destruct (frame_callback_settled
                (State (nav st) (scrollY st) (lastScroll st) (ticking st) 0) Hnav)
      as (Hn' & Hf' & Ht' & Hm').
    simpl in Hf'. unfold settled. rewrite Hf', Ht'.
    split_and!; [assumption | lia | split; [discriminate | lia] | by intros _].
Qed.

Lemma run_settled (evs : list event) : ∀ st, settled st -> settled (run evs st).
Proof.
unfold run. induction evs as [|ev evs IH]; intros st Hst; simpl; [assumption|].
apply IH. by apply handle_settled.
Qed.

Lemma frame_callback_other_class (token : jsstring) (st : state) :
token ≠ lit "scrolled" ->
(has_class token (nav (frame_callback st)) ↔ has_class token (nav st)).
Proof.
intros Hne. unfold frame_callback. destruct (nav st) as [n|] eqn:Hn.
- destruct (handleScroll_present st n Hn) as (n' & -> & _ & Hother).
  simpl. by apply Hother.
- rewrite handleScroll_absent by exact Hn. rewrite Hn. reflexivity.
Qed.

Lemma iter_frame_callback_other_class (token : jsstring) (k : nat) (st : state) :
token ≠ lit "scrolled" ->
(has_class token (nav (Nat.iter k frame_callback st)) ↔ has_class token (nav st)).
Proof.
intros Hne. induction k as [|k IH]; simpl; [reflexivity|].
by rewrite frame_callback_other_class.
Qed.

Lemma handle_other_class (token : jsstring) (ev : event) (st : state) :
token ≠ lit "scrolled" ->
(has_class token (nav (handle ev st)) ↔ has_class token (nav st)).
Proof.
intros Hne. destruct ev as [y|]; simpl.
- unfold on_scroll. simpl. by destruct (ticking st).
- by rewrite iter_frame_callback_other_class.
Qed.

(** Without the bar the callback throws and changes nothing. *)
Lemma frame_callback_absent (st : state) : nav st = None -> frame_callback st = st.
Proof. intros Hn. unfold frame_callback. by rewrite handleScroll_absent. Qed.

Lemma iter_frame_callback_absent (k : nat) (st : state) :
nav st = None -> Nat.iter k frame_callback st = st.
Proof.
intros Hn. induction k as [|k IH]; simpl; [reflexivity|].
rewrite IH. by apply frame_callback_absent.
Qed.

Lemma handle_stuck (ev : event) (st : state) :
stuck st -> stuck (handle ev st) ∧ frames (handle ev st) <= frames st.
Proof.
intros (Hn & Ht & Hf). destruct ev as [y|]; simpl.
- unfold on_scroll. simpl. rewrite Ht. simpl. unfold stuck. simpl. by split_and!.
- rewrite iter_frame_callback_absent by exact Hn. unfold stuck. simpl.
  split_and!; [assumption | assumption | lia | lia].
Qed.

End NavScrollFacts.

Lemma NavScroll_run_other_class (token : jsstring) (evs : list NavScroll.event) :
  token ≠ lit "scrolled" ->
  ∀ st, has_class token (NavScroll.nav (NavScroll.run evs st)) ↔
        has_class token (NavScroll.nav st).
Proof.
  intros Hne. unfold NavScroll.run.
  induction evs as [|ev evs IH]; intros st; simpl; [reflexivity|].
  rewrite IH. by apply NavScrollFacts.handle_other_class.
Qed.

Lemma NavScroll_run_stuck (evs : list NavScroll.event) :
  ∀ st, NavScroll.stuck st -> NavScroll.stuck (NavScroll.run evs st).
Proof.
  unfold NavScroll.run. induction evs as [|ev evs IH]; intros st Hst; simpl; [assumption|].
  apply IH. by apply NavScrollFacts.handle_stuck.
Qed.

(** X1. On a page that has the navigation bar, setupNavScroll returns
    normally, and after any scroll events and animation frames: the bar is
    still there, at most one animation frame is requested and not yet run,
    [ticking] is [true] exactly when one is, and when none is the bar carries
    the "scrolled" marker exactly when the scroll position is above 50. *)
Theorem scroll_marker_throttled (n : element) (y : QArith_base.Q) :
  ∃ st0, NavScroll.setupNavScroll (Some n) y = Ok st0 ∧
         ∀ evs : list NavScroll.event,
           is_Some (NavScroll.nav (NavScroll.run evs st0)) ∧
           NavScroll.frames (NavScroll.run evs st0) <= 1 ∧
           (NavScroll.ticking (NavScroll.run evs st0) = true ↔
            NavScroll.frames (NavScroll.run evs st0) = 1) ∧
           (NavScroll.frames (NavScroll.run evs st0) = 0 ->
            NavScroll.marker_matches_position (NavScroll.run evs st0)).
Proof.
  destruct (NavScrollFacts.setupNavScroll_settled n y) as (st0 & Hsetup & Hst0 & _).
  exists st0. split; [exact Hsetup|]. intros evs.
  exact (NavScrollFacts.run_settled evs st0 Hst0).
Qed.

(** X2. The scroll effect changes no class of the navigation bar but
    "scrolled": after any scroll events and animation frames, from any state,
    every other class is on the bar exactly when it was before. *)
Theorem scroll_touches_only_scrolled (token : jsstring) (evs : list NavScroll.event)
        (st : NavScroll.state) :
  token ≠ lit "scrolled" ->
  (has_class token (NavScroll.nav (NavScroll.run evs st)) ↔
   has_class token (NavScroll.nav st)).
Proof. intros Hne. by apply NavScroll_run_other_class. Qed.

Lemma scroll_touches_only_scrolled_witness :
  has_class (lit "nav")
    (NavScroll.nav
       (NavScroll.run [NavScroll.Scroll (QArith_base.inject_Z 80); NavScroll.AnimationFrame]
          (NavScroll.initial (Some (Element {[lit "nav"]})) (QArith_base.inject_Z 0)))) ↔
  has_class (lit "nav")
    (NavScroll.nav (NavScroll.initial (Some (Element {[lit "nav"]})) (QArith_base.inject_Z 0))).
Proof.
  apply (scroll_touches_only_scrolled (lit "nav")). discriminate.
Defined.

(** X3. On a page without the navigation bar, setupNavScroll throws; its
    scroll listener is registered by then, and after the first scroll event
    [ticking] stays [true] for good: the frame callback throws before it
    resets the flag, so no scroll event requests a frame again. *)
Theorem scroll_without_nav_locks (y y' : QArith_base.Q) (evs : list NavScroll.event) :
  NavScroll.setupNavScroll None y = Throw TypeError ∧
  NavScroll.ticking
    (NavScroll.run evs (NavScroll.handle (NavScroll.Scroll y') (NavScroll.initial None y))) = true ∧
  ∀ ev : NavScroll.event,
    NavScroll.frames
      (NavScroll.handle ev
         (NavScroll.run evs (NavScroll.handle (NavScroll.Scroll y') (NavScroll.initial None y)))) <=
    NavScroll.frames
      (NavScroll.run evs (NavScroll.handle (NavScroll.Scroll y') (NavScroll.initial None y))).
Proof.
  assert (Hstuck : NavScroll.stuck
            (NavScroll.run evs (NavScroll.handle (NavScroll.Scroll y') (NavScroll.initial None y)))).
  { apply NavScroll_run_stuck. unfold NavScroll.stuck. simpl. by split_and!. }
  split_and!.
  - by apply NavScrollFacts.handleScroll_absent.
  - apply Hstuck.
  - intros ev. by apply NavScrollFacts.handle_stuck.
Qed.

(** ** Loading the page *)

Module PageFacts.
Import Page.

Lemma listeners_foldl (f : nat -> listener) (l : list nat) :
∀ e, listeners (foldl (fun e x => addEventListener (f x) e) e l) = listeners e ++ map f l.
Proof.
induction l as [|x l IH]; intros e; simpl; [by rewrite app_nil_r|].
rewrite IH. simpl. by rewrite <- app_assoc.
Qed.

Lemma scroll_foldl (f : nat -> listener) (l : list nat) :
∀ e, scroll (foldl (fun e x => addEventListener (f x) e) e l) = scroll e.
Proof. induction l as [|x l IH]; intros e; simpl; [reflexivity|]. by rewrite IH. Qed.

Lemma reveal_foldl (f : nat -> listener) (l : list nat) :
∀ e, reveal (foldl (fun e x => addEventListener (f x) e) e l) = reveal e.
Proof. induction l as [|x l IH]; intros e; simpl; [reflexivity|]. by rewrite IH. Qed.

(** The listeners of the menu, in the order setupMobileMenu registers them. *)
Lemma setupMobileMenu_listeners (d : document) (e : env) :
listeners (fst (setupMobileMenu d e)) =
listeners e ++
match navToggle d, navMobile d with
| Some _, Some _ =>
    [ToggleClickListener] ++ map MobileLinkClickListener (navMobileLinks d) ++
    [KeyDownListener; ResizeListener]
| _, _ => []
end.
Proof.
unfold setupMobileMenu.
destruct (navToggle d), (navMobile d); simpl; rewrite ?app_nil_r; try reflexivity.
rewrite listeners_foldl. simpl. by rewrite <- !app_assoc.
Qed.

End PageFacts.

(** X4. On a page without the navigation bar, init ends with the TypeError
    of setupNavScroll: the scroll listener is the only one registered, no
    listener of the menu, of the anchors or of the form is, and the reveal
    elements are left as they were (not shown, not observed). *)
Theorem init_without_nav (d : Page.document) (y : QArith_base.Q) (r : Reveal.state) :
  Page.init d (Page.start None y r) =
  (Page.Env [Page.ScrollListener] (NavScroll.initial None y) r, Some TypeError).
Proof.
  unfold Page.init, Page.and_then, Page.setupNavScroll. simpl.
  rewrite NavScrollFacts.handleScroll_absent by reflexivity. reflexivity.
Qed.

(** X5. On a page with the navigation bar, init returns normally. It has
    registered, in this order: the scroll listener; the listeners of the menu
    (toggle, one per link, keydown, resize) when the page has both the toggle
    and the menu, and none of them otherwise; one click listener per anchor;
    the submit listener when the page has the form. The scroll state is what
    setupNavScroll gives and the reveal state what setupRevealAnimations
    gives. The toggle listener is registered exactly when the menu state has
    its listeners. *)
Theorem init_with_nav (d : Page.document) (n : element) (y : QArith_base.Q)
        (r : Reveal.state) (overflow : jsstring) :
  ∃ (s : NavScroll.state) (ls : list Page.listener),
    NavScroll.setupNavScroll (Some n) y = Ok s ∧
    Page.init d (Page.start (Some n) y r) =
      (Page.Env ls s
                (Reveal.setupRevealAnimations (Page.IntersectionObserver_in_window d)
                                              (Page.revealElements d) r),
       None) ∧
    ls = [Page.ScrollListener] ++
         match Page.navToggle d, Page.navMobile d with
         | Some _, Some _ =>
             [Page.ToggleClickListener] ++
             map Page.MobileLinkClickListener (Page.navMobileLinks d) ++
             [Page.KeyDownListener; Page.ResizeListener]
         | _, _ => []
         end ++
         map Page.AnchorClickListener (Page.anchors d) ++
         (if Page.signupForm d then [Page.SubmitListener] else []) ∧
    (Page.ToggleClickListener ∈ ls ↔
     Menu.listeners_registered
       (Menu.initial (Page.navToggle d) (Page.navMobile d) overflow) = true).
Proof.
  destruct (NavScrollFacts.setupNavScroll_settled n y) as (s & Hs & _ & _).
  exists s. eexists. split; [exact Hs|].
  assert (Hinit : Page.init d (Page.start (Some n) y r) =
    (Page.Env
       ([Page.ScrollListener] ++
        match Page.navToggle d, Page.navMobile d with
        | Some _, Some _ =>
            [Page.ToggleClickListener] ++
            map Page.MobileLinkClickListener (Page.navMobileLinks d) ++
            [Page.KeyDownListener; Page.ResizeListener]
        | _, _ => []
        end ++
        map Page.AnchorClickListener (Page.anchors d) ++
        (if Page.signupForm d then [Page.SubmitListener] else []))
       s
       (Reveal.setupRevealAnimations (Page.IntersectionObserver_in_window d)
                                     (Page.revealElements d) r),
     None)).
  { unfold Page.init, Page.and_then, Page.setupNavScroll. simpl.
    unfold NavScroll.setupNavScroll in Hs. rewrite Hs.
    unfold Page.setupSmoothScroll, Page.setupRevealAnimations, Page.setupSignupForm.
    pose proof (PageFacts.setupMobileMenu_listeners d
                  (Page.Env [Page.ScrollListener] s r)) as Hl.
    assert (Hsr : Page.scroll (fst (Page.setupMobileMenu d (Page.Env [Page.ScrollListener] s r))) = s ∧
                  Page.reveal (fst (Page.setupMobileMenu d (Page.Env [Page.ScrollListener] s r))) = r ∧
                  snd (Page.setupMobileMenu d (Page.Env [Page.ScrollListener] s r)) = None).
    { unfold Page.setupMobileMenu.
      destruct (Page.navToggle d), (Page.navMobile d); simpl;
        rewrite ?PageFacts.scroll_foldl, ?PageFacts.reveal_foldl; by split_and!. }
    destruct Hsr as (Hsc & Hrv & Hnone).
    destruct (Page.setupMobileMenu d (Page.Env [Page.ScrollListener] s r)) as [e1 o1].
    simpl in Hl, Hsc, Hrv, Hnone. subst o1.
    rewrite PageFacts.scroll_foldl, PageFacts.reveal_foldl, Hsc, Hrv.
    destruct (Page.signupForm d); simpl;
      rewrite PageFacts.listeners_foldl, Hl; unfold Page.addEventListener; simpl;
      rewrite <- ?app_assoc, ?app_nil_r; reflexivity. }
  split; [exact Hinit|]. split; [reflexivity|].
  unfold Menu.listeners_registered. simpl.
  destruct (Page.navToggle d), (Page.navMobile d); simpl.
  - split; [reflexivity|]. intros _. apply list_elem_of_In. right. by left.
  - split; [|discriminate]. intros Hin. exfalso.
    apply list_elem_of_In in Hin. simpl in Hin. destruct Hin as [Hin|Hin]; [discriminate|].
    apply in_app_or in Hin as [Hin|Hin].
    + apply in_map_iff in Hin as (? & ? & _). discriminate.
    + destruct (Page.signupForm d); simpl in Hin; intuition discriminate.
  - split; [|discriminate]. intros Hin. exfalso.
    apply list_elem_of_In in Hin. simpl in Hin. destruct Hin as [Hin|Hin]; [discriminate|].
    apply in_app_or in Hin as [Hin|Hin].
    + apply in_map_iff in Hin as (? & ? & _). discriminate.
    + destruct (Page.signupForm d); simpl in Hin; intuition discriminate.
  - split; [|discriminate]. intros Hin. exfalso.
    apply list_elem_of_In in Hin. simpl in Hin. destruct Hin as [Hin|Hin]; [discriminate|].
    apply in_app_or in Hin as [Hin|Hin].
    + apply in_map_iff in Hin as (? & ? & _). discriminate.
    + destruct (Page.signupForm d); simpl in Hin; intuition discriminate.
Qed.

(** ** The mobile menu, further *)

Module MenuMore.
Import Menu.

(** What a listener can do to the state: nothing, open it, or close it. *)
Lemma listener_cases (ev : event) (st : state) (t m : element) :
navToggle st = Some t -> navMobile st = Some m ->
listener ev st = Ok st ∨
listener ev st =
  Ok (State true (Some (Element ({[lit "active"]} ∪ classList t)))
            (Some (Element ({[lit "active"]} ∪ classList m))) (lit "hidden")) ∨
listener ev st =
  Ok (State false (Some (Element (classList t ∖ {[lit "active"]})))
            (Some (Element (classList m ∖ {[lit "active"]}))) (lit "")).
Proof.
intros Ht Hm.
pose proof (MenuFacts.openMenu_ok st t m Ht Hm) as Hopen.
pose proof (MenuFacts.closeMenu_ok st t m Ht Hm) as Hclose.
destruct ev as [| |key|w]; simpl.
- unfold toggleMenu. destruct (isMenuOpen st); auto.
- auto.
- destruct (bool_decide (key = lit "Escape") && isMenuOpen st); auto.
- destruct ((768 <=? w)%Z && isMenuOpen st); auto.
Qed.

Lemma dispatch_cases (ev : event) (st : state) :
dispatch ev st = Ok st ∨
∃ t m, navToggle st = Some t ∧ navMobile st = Some m ∧
  (dispatch ev st =
     Ok (State true (Some (Element ({[lit "active"]} ∪ classList t)))
               (Some (Element ({[lit "active"]} ∪ classList m))) (lit "hidden")) ∨
   dispatch ev st =
     Ok (State false (Some (Element (classList t ∖ {[lit "active"]})))
               (Some (Element (classList m ∖ {[lit "active"]}))) (lit ""))).
Proof.
unfold dispatch, listeners_registered.
destruct (navToggle st) as [t|] eqn:Ht; [|by left].
destruct (navMobile st) as [m|] eqn:Hm; [|by left].
destruct (listener_cases ev st t m Ht Hm) as [H | [H | H]]; [by left | right..];
  exists t, m; auto.
Qed.

Lemma dispatch_scroll_lock (ev : event) (st st' : state) :
scroll_lock_matches_flag st -> dispatch ev st = Ok st' -> scroll_lock_matches_flag st'.
Proof.
intros Hst Hd.
destruct (dispatch_cases ev st) as [H | (t & m & _ & _ & [H | H])];
  rewrite H in Hd; injection Hd as <-; [assumption | reflexivity..].
Qed.

Lemma dispatch_same_classes (ev : event) (st st' : state) :
dispatch ev st = Ok st' ->
same_classes_but (lit "active") (navToggle st') (navToggle st) ∧
same_classes_but (lit "active") (navMobile st') (navMobile st).
Proof.
intros Hd. unfold same_classes_but.
destruct (dispatch_cases ev st) as [H | (t & m & Ht & Hm & [H | H])];
  rewrite H in Hd; injection Hd as <-; [by split | |];
  rewrite Ht, Hm; simpl; split; intros other Hne;
  rewrite ?elem_of_union, ?elem_of_difference, elem_of_singleton; tauto.
Qed.

Lemma run_scroll_lock (evs : list event) :
∀ st st', scroll_lock_matches_flag st -> run evs st = Ok st' -> scroll_lock_matches_flag st'.
Proof.
induction evs as [|ev evs IH]; intros st st' Hst Hrun; simpl in Hrun.
- by injection Hrun as <-.
- destruct (dispatch ev st) as [st1|] eqn:Hd; [|discriminate]. simpl in Hrun.
  eapply IH; [|exact Hrun]. by eapply dispatch_scroll_lock.
Qed.

Lemma run_same_classes (evs : list event) :
∀ st st', run evs st = Ok st' ->
  same_classes_but (lit "active") (navToggle st') (navToggle st) ∧
  same_classes_but (lit "active") (navMobile st') (navMobile st).
Proof.
induction evs as [|ev evs IH]; intros st st' Hrun; simpl in Hrun.
- injection Hrun as <-. by split.
- destruct (dispatch ev st) as [st1|] eqn:Hd; [|discriminate]. simpl in Hrun.
  destruct (IH st1 st' Hrun) as [H1 H2].
  destruct (dispatch_same_classes ev st st1 Hd) as [H3 H4].
  unfold same_classes_but in *.
  split; intros other Hne; [rewrite H1, H3 | rewrite H2, H4]; done.
Qed.

Lemma run_unregistered (evs : list event) (st : state) :
listeners_registered st = false -> run evs st = Ok st.
Proof.
intros Hr. induction evs as [|ev evs IH]; simpl; [reflexivity|].
unfold dispatch. rewrite Hr. simpl. exact IH.
Qed.

End MenuMore.

(** X6. The menu never throws: on any page, every sequence of events is
    handled to the end. On a page that lacks the toggle or the menu, the
    events leave the state as it was when the script was loaded. *)
Theorem menu_never_throws (toggle mobile : option element) (overflow : jsstring)
        (evs : list Menu.event) :
  ∃ st, Menu.run evs (Menu.initial toggle mobile overflow) = Ok st ∧
        (Menu.listeners_registered (Menu.initial toggle mobile overflow) = false ->
         st = Menu.initial toggle mobile overflow).
Proof.
  destruct (MenuFacts.run_total evs _
              (MenuFacts.initial_registered_or_idle toggle mobile overflow)) as (st & Hst).
  exists st. split; [exact Hst|]. intros Hr.
  rewrite (MenuMore.run_unregistered evs _ Hr) in Hst. by injection Hst.
Qed.

Lemma menu_never_throws_witness :
  ∃ st, Menu.run [Menu.ToggleClick; Menu.MobileLinkClick]
                 (Menu.initial None (Some (Element ∅)) (lit "")) = Ok st ∧
        st = Menu.initial None (Some (Element ∅)) (lit "").
Proof.
  destruct (menu_never_throws None (Some (Element ∅)) (lit "")
              [Menu.ToggleClick; Menu.MobileLinkClick]) as (st & Hrun & Hsame).
  exists st. split; [exact Hrun | exact (Hsame eq_refl)].
Defined.

(** X7. On a page whose body starts with no overflow style, after any events
    the overflow style of the body is "hidden" when the menu is open and
    empty when it is closed: the page is frozen exactly while the menu is
    open. *)
Theorem menu_scroll_lock (toggle mobile : option element) (evs : list Menu.event)
        (st : Menu.state) :
  Menu.run evs (Menu.initial toggle mobile (lit "")) = Ok st ->
  Menu.body_style_overflow st = if Menu.isMenuOpen st then lit "hidden" else lit "".
Proof.
  intros Hrun.
  apply (MenuMore.run_scroll_lock evs (Menu.initial toggle mobile (lit "")) st);
    [reflexivity | exact Hrun].
Qed.

Lemma menu_scroll_lock_witness :
  Menu.body_style_overflow sample_open_menu =
  if Menu.isMenuOpen sample_open_menu then lit "hidden" else lit "".
Proof.
  apply (menu_scroll_lock (Some (Element ∅)) (Some (Element ∅)) [Menu.ToggleClick]).
  reflexivity.
Defined.

(** X8. The menu changes no class of the toggle or of the menu but "active":
    after any events, from any state, every other class is on each of the two
    elements exactly when it was before. *)
Theorem menu_touches_only_active (evs : list Menu.event) (st st' : Menu.state)
        (other : jsstring) :
  Menu.run evs st = Ok st' ->
  other ≠ lit "active" ->
  (has_class other (Menu.navToggle st') ↔ has_class other (Menu.navToggle st)) ∧
  (has_class other (Menu.navMobile st') ↔ has_class other (Menu.navMobile st)).
Proof.
  intros Hrun Hne. destruct (MenuMore.run_same_classes evs st st' Hrun) as [H1 H2].
  split; [by apply H1 | by apply H2].
Qed.

Lemma menu_touches_only_active_witness :
  (has_class (lit "nav-toggle") (Menu.navToggle sample_open_menu) ↔
   has_class (lit "nav-toggle") (Menu.navToggle sample_menu)) ∧
  (has_class (lit "nav-toggle") (Menu.navMobile sample_open_menu) ↔
   has_class (lit "nav-toggle") (Menu.navMobile sample_menu)).
Proof.
  apply (menu_touches_only_active [Menu.ToggleClick] sample_menu sample_open_menu).
  - reflexivity.
  - discriminate.
Defined.

(** X9. Opening and closing undo each other: from a closed state (flag
    false, no "active" marker on the toggle or the menu, no overflow style on
    the body) openMenu followed by closeMenu gives back the very same state,
    and so do two clicks on the toggle. *)
Theorem open_then_close_restores (st : Menu.state) (t m : element) :
  Menu.navToggle st = Some t -> Menu.navMobile st = Some m ->
  Menu.isMenuOpen st = false ->
  lit "active" ∉ classList t -> lit "active" ∉ classList m ->
  Menu.body_style_overflow st = lit "" ->
  ∃ st1, Menu.openMenu st = Ok st1 ∧ Menu.closeMenu st1 = Ok st ∧
         Menu.dispatch Menu.ToggleClick st = Ok st1 ∧
         Menu.dispatch Menu.ToggleClick st1 = Ok st.
Proof.
  intros Ht Hm Hf Hat Ham Ho.
  assert (Hback : ∀ X : gset (list N), lit "active" ∉ X -> ({[lit "active"]} ∪ X) ∖ {[lit "active"]} = X).
  { intros X HX. apply set_eq. intros x.
    rewrite elem_of_difference, elem_of_union, elem_of_singleton.
    split; [tauto|]. intros Hx. split; [tauto|]. intros ->. contradiction. }
  eexists. split; [by apply MenuFacts.openMenu_ok|].
  assert (Hclose :
    Menu.closeMenu
      (Menu.State true (Some (Element ({[lit "active"]} ∪ classList t)))
                  (Some (Element ({[lit "active"]} ∪ classList m))) (lit "hidden")) = Ok st).
  { erewrite MenuFacts.closeMenu_ok by reflexivity. simpl.
    rewrite !Hback by assumption.
    destruct st as [f nt nm o], t as [ct], m as [cm]. simpl in *. by subst. }
  split; [exact Hclose|].
  unfold Menu.dispatch, Menu.listeners_registered. rewrite Ht, Hm. simpl.
  unfold Menu.toggleMenu. rewrite Hf. split; [by apply MenuFacts.openMenu_ok | exact Hclose].
Qed.

Lemma open_then_close_restores_witness :
  ∃ st1, Menu.openMenu sample_menu = Ok st1 ∧ Menu.closeMenu st1 = Ok sample_menu ∧
         Menu.dispatch Menu.ToggleClick sample_menu = Ok st1 ∧
         Menu.dispatch Menu.ToggleClick st1 = Ok sample_menu.
Proof.
  apply (open_then_close_restores sample_menu (Element ∅) (Element ∅));
    try reflexivity; apply not_elem_of_empty.
Defined.

(** ** Reveal animations, further *)

Module RevealMore.
Import Reveal.

Lemma classList_of_add_class (token : jsstring) (e el : nat) (st : state) :
classList_of (add_class token e st) el =
if decide (e = el) then {[token]} ∪ classList_of st el else classList_of st el.
Proof.
unfold classList_of, add_class. simpl. case_decide as He.
- subst. by rewrite lookup_insert_eq.
- by rewrite lookup_insert_ne.
Qed.

Lemma on_entry_other_class (st : state) (en : entry) (el : nat) (other : jsstring) :
other ≠ lit "visible" ->
(other ∈ classList_of (on_entry st en) el ↔ other ∈ classList_of st el).
Proof.
intros Hne. unfold on_entry. destruct (isIntersecting en); [|reflexivity].
change (classList_of (unobserve (target en) ?s) el) with (classList_of s el).
rewrite classList_of_add_class. case_decide; [|reflexivity].
rewrite elem_of_union, elem_of_singleton. tauto.
Qed.

(** What one delivery does to an element. *)
Lemma callback_effect (entries : list entry) (el : nat) :
∀ st,
  (visible (observer_callback entries st) el ↔ visible st el ∨ marks el entries = true) ∧
  (el ∈ targets (observer_callback entries st) ↔
   el ∈ targets st ∧ marks el entries = false) ∧
  (∀ other, other ≠ lit "visible" ->
     (other ∈ classList_of (observer_callback entries st) el ↔ other ∈ classList_of st el)).
Proof.
unfold observer_callback, marks.
induction entries as [|en entries IH]; intros st; simpl.
- split_and!; [split; [tauto | intros [?|?]; [done | discriminate]] | tauto | done].
- destruct (IH (on_entry st en)) as (Hv & Ht & Ho).
  assert (Hen : isIntersecting en && (target en =? el) = true ↔
                isIntersecting en = true ∧ target en = el).
  { rewrite andb_true_iff, Nat.eqb_eq. tauto. }
  split_and!.
  + rewrite Hv, RevealFacts.on_entry_visible, orb_true_iff, Hen. tauto.
  + rewrite Ht, RevealFacts.on_entry_targets, orb_false_iff.
    rewrite <- Hen. destruct (isIntersecting en && (target en =? el)); intuition congruence.
  + intros other Hne. rewrite (Ho other Hne). by apply on_entry_other_class.
Qed.

(** Two entries can be handled in either order. *)
Lemma on_entry_swap (st : state) (a b : entry) :
on_entry (on_entry st a) b = on_entry (on_entry st b) a.
Proof.
unfold on_entry.
destruct (isIntersecting a) eqn:Ha, (isIntersecting b) eqn:Hb; try reflexivity.
destruct (decide (target a = target b)) as [Heq|Hne].
- rewrite Heq. reflexivity.
- unfold unobserve, add_class, classList_of. simpl.
  rewrite !lookup_insert_ne by congruence. f_equal.
  + by apply insert_insert_ne.
  + apply set_eq. intros x. rewrite !elem_of_difference. tauto.
Qed.

Lemma callback_permutation (b b' : list entry) :
Permutation b b' -> ∀ st, observer_callback b st = observer_callback b' st.
Proof.
unfold observer_callback.
induction 1 as [|x l l' _ IH|x y l|l l' l'' _ IH1 _ IH2]; intros st; simpl.
- reflexivity.
- apply IH.
- by rewrite on_entry_swap.
- by rewrite IH1.
Qed.

Lemma foldl_add_class (els : list nat) (el : nat) :
∀ st,
  let st' := foldl (fun st e => add_class (lit "visible") e st) st els in
  targets st' = targets st ∧
  (visible st' el ↔ el ∈ els ∨ visible st el) ∧
  (∀ other, other ≠ lit "visible" ->
     (other ∈ classList_of st' el ↔ other ∈ classList_of st el)).
Proof.
induction els as [|e els IH]; intros st; simpl.
- split_and!; [reflexivity | rewrite elem_of_nil; tauto | done].
- destruct (IH (add_class (lit "visible") e st)) as (Ht & Hv & Ho).
  split_and!.
  + by rewrite Ht.
  + rewrite Hv, RevealFacts.visible_add_class, elem_of_cons.
    split; [intros [?|[?|?]] | intros [[?|?]|?]]; auto.
  + intros other Hne. rewrite (Ho other Hne), classList_of_add_class.
    case_decide; [|reflexivity]. rewrite elem_of_union, elem_of_singleton. tauto.
Qed.

Lemma foldl_observe (els : list nat) (el : nat) :
∀ st,
  let st' := foldl (fun st e => observe e st) st els in
  classes st' = classes st ∧ (el ∈ targets st' ↔ el ∈ els ∨ el ∈ targets st).
Proof.
induction els as [|e els IH]; intros st; simpl.
- split; [reflexivity | rewrite elem_of_nil; tauto].
- destruct (IH (observe e st)) as (Hc & Ht). split.
  + by rewrite Hc.
  + rewrite Ht. simpl. rewrite elem_of_union, elem_of_singleton, elem_of_cons.
    split; [intros [?|[?|?]] | intros [[?|?]|?]]; auto.
Qed.

End RevealMore.

(** X10. In a runtime without IntersectionObserver, setupRevealAnimations
    shows every reveal element at once: afterwards an element is visible
    exactly when it is one of the reveal elements or was visible before,
    nothing is observed that was not, and no class but "visible" has been
    added or removed. *)
Theorem reveal_fallback_shows_all (revealElements : list nat) (st : Reveal.state) (el : nat) :
  Reveal.targets (Reveal.setupRevealAnimations false revealElements st) = Reveal.targets st ∧
  (Reveal.visible (Reveal.setupRevealAnimations false revealElements st) el ↔
   el ∈ revealElements ∨ Reveal.visible st el) ∧
  (∀ other, other ≠ lit "visible" ->
     (other ∈ Reveal.classList_of (Reveal.setupRevealAnimations false revealElements st) el ↔
      other ∈ Reveal.classList_of st el)).
Proof.
  unfold Reveal.setupRevealAnimations.
  destruct revealElements as [|e els]; [|exact (RevealMore.foldl_add_class (e :: els) el st)].
  simpl. split_and!; [reflexivity | rewrite elem_of_nil; tauto | done].
Qed.

Lemma reveal_fallback_shows_all_witness :
  lit "reveal" ∈ Reveal.classList_of
                   (Reveal.setupRevealAnimations false [0; 1]
                      (Reveal.State {[1 := {[lit "reveal"]}]} ∅)) 1 ↔
  lit "reveal" ∈ Reveal.classList_of (Reveal.State {[1 := {[lit "reveal"]}]} ∅) 1.
Proof.
  destruct (reveal_fallback_shows_all [0; 1] (Reveal.State {[1 := {[lit "reveal"]}]} ∅) 1)
    as (_ & _ & Hother).
  apply (Hother (lit "reveal")). discriminate.
Defined.

(** X11. In a runtime with IntersectionObserver, setupRevealAnimations shows
    nothing by itself: the class lists are untouched, and afterwards an
    element is observed exactly when it is one of the reveal elements or was
    observed before. *)
Theorem reveal_setup_observes_all (revealElements : list nat) (st : Reveal.state) (el : nat) :
  Reveal.classes (Reveal.setupRevealAnimations true revealElements st) = Reveal.classes st ∧
  (el ∈ Reveal.targets (Reveal.setupRevealAnimations true revealElements st) ↔
   el ∈ revealElements ∨ el ∈ Reveal.targets st).
Proof.
  unfold Reveal.setupRevealAnimations.
  destruct revealElements as [|e els]; [|exact (RevealMore.foldl_observe (e :: els) el st)].
  simpl. split; [reflexivity | rewrite elem_of_nil; tauto].
Qed.

(** X12. With the observer, a reveal element is never lost: after
    setupRevealAnimations and any sequence of deliveries, each reveal element
    is visible or still observed. *)
Theorem reveal_visible_or_observed (revealElements : list nat) (st st' : Reveal.state)
        (batches : list (list Reveal.entry)) (el : nat) :
  Reveal.steps (Reveal.setupRevealAnimations true revealElements st) batches st' ->
  el ∈ revealElements ->
  Reveal.visible st' el ∨ el ∈ Reveal.targets st'.
Proof.
  intros Hsteps Hel.
  assert (Hstart : Reveal.visible (Reveal.setupRevealAnimations true revealElements st) el ∨
                   el ∈ Reveal.targets (Reveal.setupRevealAnimations true revealElements st)).
  { right. unfold Reveal.setupRevealAnimations.
    destruct revealElements as [|e els]; [by apply elem_of_nil in Hel|].
    apply (RevealMore.foldl_observe (e :: els) el st). by left. }
  revert Hsteps Hstart. generalize (Reveal.setupRevealAnimations true revealElements st).
  intros s0 Hsteps H0. induction Hsteps as [s | s s1 s2 b bs Hstep _ IH]; [assumption|].
  apply IH. destruct Hstep as [s entries _].
  destruct (RevealMore.callback_effect entries el s) as (Hv & Ht & _).
  rewrite Hv, Ht. destruct (Reveal.marks el entries); tauto.
Qed.

Lemma reveal_visible_or_observed_witness :
  Reveal.visible
    (Reveal.observer_callback [Reveal.Entry 1 true]
       (Reveal.observer_callback [Reveal.Entry 0 true; Reveal.Entry 1 false] sample_reveal)) 0 ∨
  0 ∈ Reveal.targets
        (Reveal.observer_callback [Reveal.Entry 1 true]
           (Reveal.observer_callback [Reveal.Entry 0 true; Reveal.Entry 1 false] sample_reveal)).
Proof.
  apply (reveal_visible_or_observed [0; 1] (Reveal.State ∅ ∅) _ sample_deliveries 0).
  - unfold sample_deliveries.
    eapply Reveal.steps_cons; [|eapply Reveal.steps_cons; [|apply Reveal.steps_nil]].
    + apply Reveal.step_deliver. repeat apply Forall_cons_2; [| |apply Forall_nil_2]; simpl.
      * apply elem_of_union_r, elem_of_union_l, elem_of_singleton. reflexivity.
      * apply elem_of_union_l, elem_of_singleton. reflexivity.
    + apply Reveal.step_deliver. repeat apply Forall_cons_2; [|apply Forall_nil_2]; simpl.
      apply elem_of_difference. split.
      * apply elem_of_union_l, elem_of_singleton. reflexivity.
      * rewrite elem_of_singleton. discriminate.
  - apply elem_of_cons. by left.
Defined.

(** X13. What one delivery of the observer does: afterwards an element is
    visible exactly when it was before or the delivery reports it as
    intersecting, it is observed exactly when it was before and the delivery
    does not report it as intersecting, and no class but "visible" has been
    added or removed. *)
Theorem delivery_effect (entries : list Reveal.entry) (st : Reveal.state) (el : nat) :
  (Reveal.visible (Reveal.observer_callback entries st) el ↔
   Reveal.visible st el ∨ Reveal.marks el entries = true) ∧
  (el ∈ Reveal.targets (Reveal.observer_callback entries st) ↔
   el ∈ Reveal.targets st ∧ Reveal.marks el entries = false) ∧
  (∀ other, other ≠ lit "visible" ->
     (other ∈ Reveal.classList_of (Reveal.observer_callback entries st) el ↔
      other ∈ Reveal.classList_of st el)).
Proof. apply RevealMore.callback_effect. Qed.

Lemma delivery_effect_witness :
  lit "reveal" ∈ Reveal.classList_of
                   (Reveal.observer_callback [Reveal.Entry 1 true]
                      (Reveal.State {[1 := {[lit "reveal"]}]} {[1]})) 1 ↔
  lit "reveal" ∈ Reveal.classList_of (Reveal.State {[1 := {[lit "reveal"]}]} {[1]}) 1.
Proof.
  destruct (delivery_effect [Reveal.Entry 1 true]
              (Reveal.State {[1 := {[lit "reveal"]}]} {[1]}) 1) as (_ & _ & Hother).
  apply (Hother (lit "reveal")). discriminate.
Defined.

(** X14. The order of the entries in a delivery does not matter: the
    callback leaves the same state for any two deliveries that hold the same
    entries. *)
Theorem delivery_order_irrelevant (b b' : list Reveal.entry) (st : Reveal.state) :
  Permutation b b' ->
  Reveal.observer_callback b st = Reveal.observer_callback b' st.
Proof. intros Hperm. by apply RevealMore.callback_permutation. Qed.

Lemma delivery_order_irrelevant_witness :
  Reveal.observer_callback [Reveal.Entry 0 true; Reveal.Entry 1 true] sample_reveal =
  Reveal.observer_callback [Reveal.Entry 1 true; Reveal.Entry 0 true] sample_reveal.
Proof.
  apply delivery_order_irrelevant. apply perm_swap.
Defined.

(** ** The signup form, further *)

Module FormMore.
Import Form.

Lemma clear_timer_fires_js (i : nat) (st : state) (delay : N) :
pending st !! i = Some (Timeout ClearMessage delay) ->
Js.timer_fires i st = clear_message (finish i st).
Proof. intros Hi. unfold Js.timer_fires. by rewrite Hi. Qed.

Lemma clear_timer_fires_scripts (i : nat) (st : state) (delay : N) :
pending st !! i = Some (Timeout ClearMessage delay) ->
Scripts.timer_fires i st = clear_message (finish i st).
Proof. intros Hi. unfold Scripts.timer_fires. by rewrite Hi. Qed.

(** Two messages in a row on a page that has the message area. *)
Lemma showMessage_twice (m1 t1 m2 t2 : jsstring) (st : state) (area : message_area) :
signupMessage st = Some area ->
showMessage m2 t2 (showMessage m1 t1 st) =
State (emailInput_value st) (button_textContent st) (button_disabled st)
      (Some (MessageArea m2 (lit "signup-message " ++ t2)))
      (pending st ++ [Timeout ClearMessage 5000; Timeout ClearMessage 5000]).
Proof.
intros Ha. unfold showMessage. rewrite Ha. simpl. unfold start. simpl.
by rewrite <- app_assoc.
Qed.

Lemma on_settle_button (originalText : jsstring) (o : Scripts.fetch_outcome) (st : state) :
button_textContent (Scripts.on_settle originalText o st) = originalText ∧
button_disabled (Scripts.on_settle originalText o st) = false.
Proof. destruct o as [|[[] []]]; by split. Qed.

End FormMore.

(** X15. A submission is started only for an address that passed the
    validation: whatever the field holds, a request (or a simulated delay)
    that is pending after the listener and was not before is the one for the
    trimmed value of the field, that value is accepted by isValidEmail, and
    the task remembers the label the button had. *)
Theorem only_valid_addresses_submitted (st : Form.state) (t : Form.task) :
  Form.is_submission t = true ->
  (t ∈ Form.pending (Scripts.on_submit st) ->
   t ∈ Form.pending st ∨
   (Scripts.isValidEmail (trim (Form.emailInput_value st)) = true ∧
    t = Form.Fetch (Scripts.signup_request (trim (Form.emailInput_value st)))
                   (Form.button_textContent st))) ∧
  (t ∈ Form.pending (Js.on_submit st) ->
   t ∈ Form.pending st ∨
   (Js.isValidEmail (trim (Form.emailInput_value st)) = true ∧
    t = Form.Timeout (Form.SimulatedResponse (Form.button_textContent st)) 1000)).
Proof.
  intros Hsub. split.
  - unfold Scripts.on_submit.
    destruct (Scripts.isValidEmail (trim (Form.emailInput_value st))) eqn:Hv; simpl.
    + rewrite elem_of_app, list_elem_of_singleton. intros [?|?]; auto.
    + destruct (FormFacts.showMessage_pending
                  (lit "Please enter a valid email address.") (lit "error") st)
        as (extra & -> & Hextra).
      rewrite elem_of_app. intros [?|Hin]; [by left|].
      eapply Forall_forall in Hextra; [|exact Hin]. simpl in Hextra. congruence.
  - unfold Js.on_submit.
    destruct (Js.isValidEmail (trim (Form.emailInput_value st))) eqn:Hv; simpl.
    + rewrite elem_of_app, list_elem_of_singleton. intros [?|?]; auto.
    + destruct (FormFacts.showMessage_pending
                  (lit "Please enter a valid email address.") (lit "error") st)
        as (extra & -> & Hextra).
      rewrite elem_of_app. intros [?|Hin]; [by left|].
      eapply Forall_forall in Hextra; [|exact Hin]. simpl in Hextra. congruence.
Qed.

Lemma only_valid_addresses_submitted_witness :
  Form.Fetch (Scripts.signup_request (lit "a@b.c")) (lit "Notify me") ∈ [] ∨
  (Scripts.isValidEmail (trim (Form.emailInput_value (sample_form (lit " a@b.c")))) = true ∧
   Form.Fetch (Scripts.signup_request (lit "a@b.c")) (lit "Notify me") =
   Form.Fetch (Scripts.signup_request (trim (Form.emailInput_value (sample_form (lit " a@b.c")))))
              (Form.button_textContent (sample_form (lit " a@b.c")))).
Proof.
  apply (only_valid_addresses_submitted (sample_form (lit " a@b.c"))
           (Form.Fetch (Scripts.signup_request (lit "a@b.c")) (lit "Notify me")) eq_refl).
  apply list_elem_of_In. left. reflexivity.
Defined.

(** X16. However the request ends (no response, a status that is not OK, an
    OK status with a body that is not JSON, an OK status with a JSON body),
    the button gets back the label it had at the submit and is enabled. The
    field is emptied and the success message shown exactly for an OK status
    with a JSON body; in every other case the field keeps its value and the
    retry message is shown, also for an OK status whose body is not JSON. *)
Theorem every_outcome_restores_button (originalText : jsstring)
        (o : Scripts.fetch_outcome) (st : Form.state) :
  Form.button_textContent (Scripts.on_settle originalText o st) = originalText ∧
  Form.button_disabled (Scripts.on_settle originalText o st) = false ∧
  (Scripts.succeeded o ->
   Form.emailInput_value (Scripts.on_settle originalText o st) = lit "" ∧
   Form.signupMessage (Scripts.on_settle originalText o st) =
     shown (lit "You're on the list!") (lit "success") (Form.signupMessage st)) ∧
  (¬ Scripts.succeeded o ->
   Form.emailInput_value (Scripts.on_settle originalText o st) = Form.emailInput_value st ∧
   Form.signupMessage (Scripts.on_settle originalText o st) =
     shown (lit "Something went wrong. Please try again.") (lit "error")
           (Form.signupMessage st)).
Proof.
  destruct (FormMore.on_settle_button originalText o st) as [Hl Hd].
  split_and!; [exact Hl | exact Hd | |].
  - intros Ho. rewrite on_settle_succeeded by exact Ho. simpl.
    by rewrite FormFacts.showMessage_signupMessage.
  - intros Ho.
    assert (Hfail : Scripts.on_settle originalText o st =
      Form.set_button_disabled false
        (Form.set_button_textContent originalText
           (Form.showMessage (lit "Something went wrong. Please try again.") (lit "error") st))).
    { destruct o as [|[[] []]]; try reflexivity. exfalso. by apply Ho. }
    rewrite Hfail. simpl.
    by rewrite FormFacts.showMessage_signupMessage, FormFacts.showMessage_emailInput_value.
Qed.

Lemma every_outcome_restores_button_witness :
  Form.emailInput_value
    (Scripts.on_settle (lit "Notify me") (Scripts.Responded (Scripts.Response true false))
       (sample_form (lit "a@b.c"))) = lit "a@b.c" ∧
  Form.signupMessage
    (Scripts.on_settle (lit "Notify me") (Scripts.Responded (Scripts.Response true false))
       (sample_form (lit "a@b.c"))) =
  shown (lit "Something went wrong. Please try again.") (lit "error")
        (Form.signupMessage (sample_form (lit "a@b.c"))).
Proof.
  destruct (every_outcome_restores_button (lit "Notify me")
              (Scripts.Responded (Scripts.Response true false)) (sample_form (lit "a@b.c")))
    as (_ & _ & _ & Hfail).
  apply Hfail. unfold Scripts.succeeded. discriminate.
Defined.

(** X17. The timers of showMessage are never cancelled: when a second
    message is shown while the timer of a first one is pending, that first
    timer, when it fires, clears the second message (empty text, class
    "signup-message"), and the timer of the second message is still
    pending. So in both files. *)
Theorem stale_timer_clears_new_message (m1 t1 m2 t2 : jsstring) (st : Form.state)
        (area : Form.message_area) :
  Form.signupMessage st = Some area ->
  Form.signupMessage (Form.showMessage m2 t2 (Form.showMessage m1 t1 st)) =
    Some (Form.MessageArea m2 (lit "signup-message " ++ t2)) ∧
  Form.signupMessage
    (Js.timer_fires (length (Form.pending st))
       (Form.showMessage m2 t2 (Form.showMessage m1 t1 st))) =
    Some (Form.MessageArea (lit "") (lit "signup-message")) ∧
  Form.pending
    (Js.timer_fires (length (Form.pending st))
       (Form.showMessage m2 t2 (Form.showMessage m1 t1 st))) =
    Form.pending st ++ [Form.Timeout Form.ClearMessage 5000] ∧
  Scripts.timer_fires (length (Form.pending st))
    (Form.showMessage m2 t2 (Form.showMessage m1 t1 st)) =
  Js.timer_fires (length (Form.pending st))
    (Form.showMessage m2 t2 (Form.showMessage m1 t1 st)).
Proof.
  intros Ha. rewrite (FormMore.showMessage_twice m1 t1 m2 t2 st area Ha).
  assert (Hi : (Form.pending st ++
                [Form.Timeout Form.ClearMessage 5000; Form.Timeout Form.ClearMessage 5000])
               !! length (Form.pending st) = Some (Form.Timeout Form.ClearMessage 5000)).
  { by rewrite list_lookup_middle. }
  rewrite (FormMore.clear_timer_fires_js _ _ 5000) by exact Hi.
  rewrite (FormMore.clear_timer_fires_scripts _ _ 5000) by exact Hi.
  unfold Form.clear_message, Form.finish. simpl.
  split_and!; try reflexivity.
  by rewrite (delete_middle (Form.pending st)).
Qed.

Lemma stale_timer_clears_new_message_witness :
  Form.signupMessage
    (Js.timer_fires 0
       (Form.showMessage (lit "second") (lit "success")
          (Form.showMessage (lit "first") (lit "error") (sample_form (lit ""))))) =
  Some (Form.MessageArea (lit "") (lit "signup-message")).
Proof.
  destruct (stale_timer_clears_new_message (lit "first") (lit "error") (lit "second")
              (lit "success") (sample_form (lit ""))
              (Form.MessageArea (lit "") (lit "signup-message")) eq_refl)
    as (_ & H & _).
  exact H.
Defined.

Module ResubmitFacts.
Import Form.

Lemma js_submission_timer (i : nat) (st : state) (originalText : jsstring) (delay : N) :
pending st !! i = Some (Timeout (SimulatedResponse originalText) delay) ->
button_textContent (Js.timer_fires i st) = originalText ∧
button_disabled (Js.timer_fires i st) = false ∧
∃ extra, pending (Js.timer_fires i st) = delete i (pending st) ++ extra.
Proof.
intros Hi. unfold Js.timer_fires. rewrite Hi. simpl. split_and!; try reflexivity.
destruct (FormFacts.showMessage_pending (lit "Thanks! We'll be in touch soon.")
            (lit "success") (finish i st)) as (extra & Hp & _).
exists extra. exact Hp.
Qed.

Lemma on_settle_pending (originalText : jsstring) (o : Scripts.fetch_outcome) (st : state) :
∃ extra, pending (Scripts.on_settle originalText o st) = pending st ++ extra.
Proof.
destruct o as [|[[] []]]; simpl;
  match goal with
  | |- context [showMessage ?m ?t st] =>
      destruct (FormFacts.showMessage_pending m t st) as (extra & Hp & _)
  end; exists extra; exact Hp.
Qed.

Lemma scripts_request_settles (i : nat) (st : state) (req : request)
    (originalText : jsstring) (o : Scripts.fetch_outcome) :
pending st !! i = Some (Fetch req originalText) ->
button_textContent (Scripts.fetch_settles i o st) = originalText ∧
button_disabled (Scripts.fetch_settles i o st) = false ∧
∃ extra, pending (Scripts.fetch_settles i o st) = delete i (pending st) ++ extra.
Proof.
intros Hi. unfold Scripts.fetch_settles. rewrite Hi.
destruct (FormMore.on_settle_button originalText o (finish i st)) as [Hl Hd].
split_and!; [exact Hl | exact Hd |].
apply (on_settle_pending originalText o (finish i st)).
Qed.

(** The second of two tasks started in a row is at the place of the first
  once the first is gone. *)
Lemma second_takes_place (P extra : list task) (a b : task) :
(delete (length P) (P ++ [a; b]) ++ extra) !! length P = Some b.
Proof.
rewrite (delete_middle P [b] a), <- app_assoc. simpl.
by rewrite list_lookup_middle.
Qed.

End ResubmitFacts.

(** X18. The listener reads the label to restore from the button when it
    runs. If it runs a second time while the first submission is pending
    (the field still holds the valid value), the second run remembers the
    pending label: once both submissions have ended, in the order they were
    started, the button is enabled and shows the pending label, not the
    label it had at first. So in both files, and for every outcome of the
    two requests. *)
Theorem resubmit_keeps_pending_label (st : Form.state) :
  Js.isValidEmail (trim (Form.emailInput_value st)) = true ->
  (Form.button_textContent
     (Js.timer_fires (length (Form.pending st))
        (Js.timer_fires (length (Form.pending st)) (Js.on_submit (Js.on_submit st)))) =
   lit "Sending..." ∧
   Form.button_disabled
     (Js.timer_fires (length (Form.pending st))
        (Js.timer_fires (length (Form.pending st)) (Js.on_submit (Js.on_submit st)))) =
   false) ∧
  (∀ o1 o2 : Scripts.fetch_outcome,
     Form.button_textContent
       (Scripts.fetch_settles (length (Form.pending st)) o2
          (Scripts.fetch_settles (length (Form.pending st)) o1
             (Scripts.on_submit (Scripts.on_submit st)))) =
     lit "Signing up..." ∧
     Form.button_disabled
       (Scripts.fetch_settles (length (Form.pending st)) o2
          (Scripts.fetch_settles (length (Form.pending st)) o1
             (Scripts.on_submit (Scripts.on_submit st)))) =
     false).
Proof.
  intros Hvalid. split.
  - assert (Htwice : Form.pending (Js.on_submit (Js.on_submit st)) =
              Form.pending st ++
                [Form.Timeout (Form.SimulatedResponse (Form.button_textContent st)) 1000;
                 Form.Timeout (Form.SimulatedResponse (lit "Sending...")) 1000]).
    { unfold Js.on_submit at 2. rewrite Hvalid. simpl.
      unfold Js.on_submit. simpl. rewrite Hvalid. simpl. by rewrite <- app_assoc. }
    destruct (ResubmitFacts.js_submission_timer (length (Form.pending st))
                (Js.on_submit (Js.on_submit st)) (Form.button_textContent st) 1000)
      as (_ & _ & extra & Hp).
    { rewrite Htwice. by rewrite list_lookup_middle. }
    rewrite Htwice in Hp.
    destruct (ResubmitFacts.js_submission_timer (length (Form.pending st))
                (Js.timer_fires (length (Form.pending st)) (Js.on_submit (Js.on_submit st)))
                (lit "Sending...") 1000) as (Hl & Hd & _).
    { rewrite Hp. apply ResubmitFacts.second_takes_place. }
    by split.
  - intros o1 o2.
    assert (Htwice : Form.pending (Scripts.on_submit (Scripts.on_submit st)) =
              Form.pending st ++
                [Form.Fetch (Scripts.signup_request (trim (Form.emailInput_value st)))
                            (Form.button_textContent st);
                 Form.Fetch (Scripts.signup_request (trim (Form.emailInput_value st)))
                            (lit "Signing up...")]).
    { change (Scripts.isValidEmail (trim (Form.emailInput_value st)) = true) in Hvalid.
      unfold Scripts.on_submit at 2. rewrite Hvalid. simpl.
      unfold Scripts.on_submit. simpl. rewrite Hvalid. simpl. by rewrite <- app_assoc. }
    destruct (ResubmitFacts.scripts_request_settles (length (Form.pending st))
                (Scripts.on_submit (Scripts.on_submit st))
                (Scripts.signup_request (trim (Form.emailInput_value st)))
                (Form.button_textContent st) o1)
      as (_ & _ & extra & Hp).
    { rewrite Htwice. by rewrite list_lookup_middle. }
    rewrite Htwice in Hp.
    destruct (ResubmitFacts.scripts_request_settles (length (Form.pending st))
                (Scripts.fetch_settles (length (Form.pending st)) o1
                   (Scripts.on_submit (Scripts.on_submit st)))
                (Scripts.signup_request (trim (Form.emailInput_value st)))
                (lit "Signing up...") o2) as (Hl & Hd & _).
    { rewrite Hp. apply ResubmitFacts.second_takes_place. }
    by split.
Qed.

Lemma resubmit_keeps_pending_label_witness :
  Form.button_textContent
    (Js.timer_fires 0 (Js.timer_fires 0 (Js.on_submit (Js.on_submit (sample_form (lit "a@b.c")))))) =
  lit "Sending...".
Proof.
  destruct (resubmit_keeps_pending_label (sample_form (lit "a@b.c")) eq_refl) as [[H _] _].
  exact H.
Defined.

(** ** Validation, further *)

(** X19. An address that isValidEmail accepts has at least five characters
    and is left as it is by trim: what the listener validates is what it
    sends. *)
Theorem accepted_address_is_trimmed (s : jsstring) :
  Js.isValidEmail s = true -> 5 <= length s ∧ trim s = s.
Proof.
  intros Hs. split.
  - apply isValidEmail_segments in Hs as (l & d & t & (-> & Hl & Hd & Ht) & _).
    rewrite !length_app. simpl.
    destruct l; [done|]. destruct d; [done|]. destruct t; [done|]. simpl. lia.
  - pose proof (FormFacts.trim_valid_surrounded [] s [] (Forall_nil_2 _) (Forall_nil_2 _) Hs) as H.
    simpl in H. by rewrite app_nil_r in H.
Qed.

Lemma accepted_address_is_trimmed_witness :
  5 <= length (lit "a@b.c") ∧ trim (lit "a@b.c") = lit "a@b.c".
Proof. apply accepted_address_is_trimmed. reflexivity. Defined.

(** ** The body of the request *)

Module JSONFacts.
Import JSON.

Lemma hex_value_hex_digit (d : N) : (d < 16)%N -> hex_value (hex_digit d) = Some d.
Proof.
intros Hd. unfold hex_value, hex_digit.
destruct (N.ltb_spec d 10).
- replace ((48 <=? 48 + d) && (48 + d <=? 57))%N with true.
  + f_equal. lia.
  + symmetry. apply andb_true_iff. split; apply N.leb_le; lia.
- replace ((48 <=? 87 + d) && (87 + d <=? 57))%N with false.
  + replace ((97 <=? 87 + d) && (87 + d <=? 102))%N with true.
    * f_equal. lia.
    * symmetry. apply andb_true_iff. split; apply N.leb_le; lia.
  + symmetry. apply andb_false_iff. right. apply N.leb_gt. lia.
Qed.

Lemma hex_digits_value (c : N) :
(c < 65536)%N ->
(((c / 4096) mod 16) * 4096 + ((c / 256) mod 16) * 256 +
 ((c / 16) mod 16) * 16 + c mod 16 = c)%N.
Proof.
intros Hc.
pose proof (N.div_mod c 16 ltac:(lia)).
pose proof (N.div_mod (c / 16) 16 ltac:(lia)).
pose proof (N.div_mod (c / 256) 16 ltac:(lia)).
pose proof (N.mod_small (c / 4096) 16) as Hsmall.
replace (c / 256)%N with (c / 16 / 16)%N in * by (rewrite N.Div0.div_div; reflexivity).
replace (c / 4096)%N with (c / 16 / 16 / 16)%N in * by (rewrite !N.Div0.div_div; reflexivity).
assert (c / 16 / 16 / 16 < 16)%N.
{ rewrite !N.Div0.div_div. apply N.Div0.div_lt_upper_bound. simpl. lia. }
rewrite Hsmall by assumption. lia.
Qed.

Lemma unquote_UnicodeEscape (c : code_unit) (t r : jsstring) :
(c < 65536)%N -> unquote_units t = Some r ->
unquote_units (UnicodeEscape c ++ t) = Some (c :: r).
Proof.
intros Hc Ht. unfold UnicodeEscape.
cbn [app unquote_units N.eqb Pos.eqb].
rewrite !hex_value_hex_digit by (apply N.mod_lt; lia).
rewrite Ht, hex_digits_value by exact Hc. reflexivity.
Qed.

Lemma unquote_quote_unit (c : code_unit) (t r : jsstring) :
unquote_units t = Some r -> unquote_units (quote_unit c ++ t) = Some (c :: r).
Proof.
intros Ht. unfold quote_unit.
destruct (N.eqb_spec c 8) as [->|?]; [simpl; by rewrite Ht|].
destruct (N.eqb_spec c 9) as [->|?]; [simpl; by rewrite Ht|].
destruct (N.eqb_spec c 10) as [->|?]; [simpl; by rewrite Ht|].
destruct (N.eqb_spec c 12) as [->|?]; [simpl; by rewrite Ht|].
destruct (N.eqb_spec c 13) as [->|?]; [simpl; by rewrite Ht|].
destruct (N.eqb_spec c 34) as [->|?]; [simpl; by rewrite Ht|].
destruct (N.eqb_spec c 92) as [->|?]; [simpl; by rewrite Ht|].
destruct ((c <? 32)%N || is_leading_surrogate c || is_trailing_surrogate c) eqn:Hesc.
- apply unquote_UnicodeEscape; [|exact Ht].
  unfold is_leading_surrogate, is_trailing_surrogate in Hesc.
  rewrite !orb_true_iff, !andb_true_iff, N.ltb_lt, !N.leb_le in Hesc. lia.
- simpl. rewrite (proj2 (N.eqb_neq c 92)) by assumption. by rewrite Ht.
Qed.

Lemma unquote_quote_units_bounded (n : nat) :
∀ s : jsstring, length s <= n -> unquote_units (quote_units s) = Some s.
Proof.
induction n as [|n IH]; intros s Hlen.
- destruct s; [reflexivity | simpl in Hlen; lia].
- destruct s as [|c s]; [reflexivity|]. simpl in Hlen. cbn [quote_units].
  destruct (is_leading_surrogate c) eqn:Hlead.
  + destruct s as [|d s].
    * rewrite <- (app_nil_r (quote_unit c)). by apply unquote_quote_unit.
    * destruct (is_trailing_surrogate d) eqn:Htrail.
      -- unfold is_leading_surrogate in Hlead. unfold is_trailing_surrogate in Htrail.
         rewrite andb_true_iff, !N.leb_le in Hlead, Htrail.
         cbn [unquote_units].
         rewrite (proj2 (N.eqb_neq c 92)) by lia.
         rewrite (proj2 (N.eqb_neq d 92)) by lia.
         rewrite IH by (simpl in Hlen; lia). reflexivity.
      -- apply unquote_quote_unit. apply IH. lia.
  + apply unquote_quote_unit. apply IH. lia.
Qed.

Lemma unquote_quote_units (s : jsstring) : unquote_units (quote_units s) = Some s.
Proof. by apply (unquote_quote_units_bounded (length s)). Qed.

Lemma quote_units_plain (s : jsstring) : Forall plain_unit s -> quote_units s = s.
Proof.
induction 1 as [|c s (H32 & H34 & H92 & Hsur) _ IH]; [reflexivity|].
cbn [quote_units].
assert (Hlead : is_leading_surrogate c = false).
{ unfold is_leading_surrogate. apply andb_false_iff.
  destruct Hsur; [left | right]; apply N.leb_gt; lia. }
assert (Htrail : is_trailing_surrogate c = false).
{ unfold is_trailing_surrogate. apply andb_false_iff.
  destruct Hsur; [left | right]; apply N.leb_gt; lia. }
rewrite Hlead, IH. unfold quote_unit.
destruct (N.eqb_spec c 8) as [->|?]; [lia|].
destruct (N.eqb_spec c 9) as [->|?]; [lia|].
destruct (N.eqb_spec c 10) as [->|?]; [lia|].
destruct (N.eqb_spec c 12) as [->|?]; [lia|].
destruct (N.eqb_spec c 13) as [->|?]; [lia|].
destruct (N.eqb_spec c 34) as [->|?]; [congruence|].
destruct (N.eqb_spec c 92) as [->|?]; [congruence|].
rewrite Hlead, Htrail, (proj2 (N.ltb_ge c 32)) by lia. reflexivity.
Qed.

End JSONFacts.

(** X20. For an address made of plain characters (no control character, no
    quote, no backslash, no surrogate), the body of the request is the
    address between [{"email":"] and ["}], character for character. *)
Theorem plain_address_body (email : jsstring) :
  Forall plain_unit email ->
  Form.body (Scripts.signup_request email) =
  lit "{" ++ [34%N] ++ lit "email" ++ [34%N] ++ lit ":" ++
  [34%N] ++ email ++ [34%N] ++ lit "}".
Proof.
  intros Hplain. unfold Scripts.signup_request, JSON.stringify_object1, JSON.QuoteJSONString.
  cbn [Form.body]. rewrite (JSONFacts.quote_units_plain email Hplain).
  rewrite <- !app_assoc. reflexivity.
Qed.

Lemma plain_address_body_witness :
  Form.body (Scripts.signup_request (lit "a@b.c")) =
  lit "{" ++ [34%N] ++ lit "email" ++ [34%N] ++ lit ":" ++
  [34%N] ++ lit "a@b.c" ++ [34%N] ++ lit "}".
Proof.
  apply plain_address_body.
  repeat (apply Forall_cons_2; [unfold plain_unit; simpl; lia|]). apply Forall_nil_2.
Defined.

(** X21. The body of the request determines the address: two addresses with
    the same body are the same address, whatever characters they hold
    (control characters, quotes, backslashes and lone surrogates are escaped
    without loss). *)
Theorem request_body_determines_address (email1 email2 : jsstring) :
  Form.body (Scripts.signup_request email1) = Form.body (Scripts.signup_request email2) ->
  email1 = email2.
Proof.
  unfold Scripts.signup_request, JSON.stringify_object1. cbn [Form.body].
  intros Hbody.
  do 3 apply app_inv_head in Hbody. apply app_inv_tail in Hbody.
  unfold JSON.QuoteJSONString in Hbody.
  apply app_inv_head, app_inv_tail in Hbody.
  apply (f_equal unquote_units) in Hbody.
  rewrite !JSONFacts.unquote_quote_units in Hbody. by injection Hbody.
Qed.

Lemma request_body_determines_address_witness :
  [34%N; 92%N] = [34%N; 92%N].
Proof.
  apply (request_body_determines_address [34%N; 92%N] [34%N; 92%N]). reflexivity.
Defined.
